(** * pytest-describe-beautifully: the describe tree, its collector and the
      name humanizers, embedded from [model.py], [collector.py] and
      [naming.py].

    Python values are modelled as follows.
    - [str] is [string]; a character is a code point below 256.
    - [float] is the kernel's binary64 [float]; [int] counts are [nat].
    - a dataclass is a record; [None]-able fields are [option]s.
    - [model.py]'s read-only properties are functions on the tree of owned
      children (module [Model]).
    - [collector.py] mutates nodes that are shared between the tree and the
      [_nodes] dictionary, so the collector works on a store of node objects
      addressed by allocation order, with children held by address. *)

From Stdlib Require Import Floats Ascii String.
From stdpp Require Import gmap strings list sorting.

Set Warnings "-register-all".

(** ** naming.py *)

Module Naming.

(** [s[n:]] *)
Fixpoint slice_from (n : nat) (s : string) : string :=
  match n, s with
  | 0, _ => s
  | S k, EmptyString => EmptyString
  | S k, String _ rest => slice_from k rest
  end.

(** [s.startswith(p)] *)
Definition startswith (s p : string) : bool := String.prefix p s.

(** [c in s] for a one-character [c] *)
Fixpoint contains (c : ascii) (s : string) : bool :=
  match s with
  | EmptyString => false
  | String d rest => if Ascii.eqb d c then true else contains c rest
  end.

(** [s.replace(a, b)] for one-character [a] and [b] *)
Fixpoint replace (a b : ascii) (s : string) : string :=
  match s with
  | EmptyString => EmptyString
  | String d rest => String (if Ascii.eqb d a then b else d) (replace a b rest)
  end.

(** [c.isupper()] on one code point below 256: the upper-case letters are
    A-Z, U+00C0-U+00D6 and U+00D8-U+00DE. *)
Definition isupper (c : ascii) : bool :=
  let n := nat_of_ascii c in
  ((65 <=? n) && (n <=? 90)) || ((192 <=? n) && (n <=? 214))
  || ((216 <=? n) && (n <=? 222)).

(** The [for prefix in ("describe_", "Describe_")] loop with its [break]. *)
Fixpoint strip_prefixes (prefixes : list string) (stripped : string) : string :=
  match prefixes with
  | [] => stripped
  | prefix :: more =>
      if startswith stripped prefix
      then slice_from (String.length prefix) stripped
      else strip_prefixes more stripped
  end.

Definition humanize_describe_name (name : string) : string :=
  let stripped := strip_prefixes ["describe_"; "Describe_"] name in
  match stripped with
  | EmptyString => name
  | String c0 _ =>
      if isupper c0 && negb (contains "_" stripped) then stripped
      else replace "_" " " stripped
  end.

Definition humanize_test_name (name : string) : string := replace "_" " " name.

End Naming.

(** ** model.py *)

Inductive TestOutcome :=
  PASSED | FAILED | SKIPPED | XFAILED | XPASSED | ERROR | PENDING.

Inductive NodeType := FILE | DESCRIBE | TEST.

#[global] Instance TestOutcome_eq_dec : EqDecision TestOutcome.
Proof. solve_decision. Defined.

#[global] Instance NodeType_eq_dec : EqDecision NodeType.
Proof. solve_decision. Defined.

Record TestResult := mkTestResult {
  outcome : TestOutcome;
  duration : float;
  longrepr : string;
  sections : list (string * string);
  fixture_names : list string
}.

(** [TestResult(fixture_names=fx)]: every other field at its default. *)
Definition new_TestResult (fx : list string) : TestResult :=
  {| outcome := PENDING; duration := 0%float; longrepr := "";
     sections := []; fixture_names := fx |}.

(** [sum] over [int]s: additions from 0, left to right. *)
Definition sum (l : list nat) : nat := fold_left Nat.add l 0.

Module Model.

Inductive DescribeNode := mkDescribeNode {
  name : string;
  display_name : string;
  node_type : NodeType;
  nodeid : string;
  docstring : string;
  children : list DescribeNode;
  result : option TestResult
}.

Definition is_test (self : DescribeNode) : bool :=
  bool_decide (node_type self = TEST).

Definition has_outcome (self : DescribeNode) (o : TestOutcome) : bool :=
  match result self with
  | Some r => bool_decide (outcome r = o)
  | None => false
  end.

Fixpoint test_count (self : DescribeNode) : nat :=
  if is_test self then 1
  else sum (map test_count (children self)).

Fixpoint passed_count (self : DescribeNode) : nat :=
  if is_test self then (if has_outcome self PASSED then 1 else 0)
  else sum (map passed_count (children self)).

Fixpoint failed_count (self : DescribeNode) : nat :=
  if is_test self
  then (if has_outcome self FAILED || has_outcome self ERROR then 1 else 0)
  else sum (map failed_count (children self)).

Fixpoint skipped_count (self : DescribeNode) : nat :=
  if is_test self then (if has_outcome self SKIPPED then 1 else 0)
  else sum (map skipped_count (children self)).

(** The rounding of [sum] over floats depends on the interpreter (newer
    ones compensate it), so the float [sum] is taken as given. *)
Section Durations.
Variable fsum : list float -> float.

Fixpoint aggregate_duration (self : DescribeNode) : float :=
    if is_test self
    then match result self with Some r => duration r | None => 0%float end
    else fsum (map aggregate_duration (children self)).
End Durations.

Fixpoint overall_outcome (self : DescribeNode) : TestOutcome :=
  if is_test self
  then match result self with Some r => outcome r | None => PENDING end
  else
    let outcomes := map overall_outcome (children self) in
    match outcomes with
    | [] => PENDING
    | _ =>
        if existsb (fun o => bool_decide (o = FAILED) || bool_decide (o = ERROR))
             outcomes then FAILED
        else if existsb (fun o => bool_decide (o = XPASSED)) outcomes then XPASSED
        else if forallb (fun o => bool_decide (o = SKIPPED)) outcomes then SKIPPED
        else if forallb (fun o => bool_decide (o = PENDING)) outcomes then PENDING
        else PASSED
    end.

(** The [for child in ...: found = ...; if found: return found] loop; a
    node object is always truthy. *)
Fixpoint first_found {A B} (f : A -> option B) (l : list A) : option B :=
  match l with
  | [] => None
  | x :: rest =>
      match f x with
      | Some found => Some found
      | None => first_found f rest
      end
  end.

Fixpoint find_by_nodeid (self : DescribeNode) (id : string) : option DescribeNode :=
  if String.eqb (nodeid self) id then Some self
  else first_found (fun child => find_by_nodeid child id) (children self).

Record DescribeTree := mkDescribeTree {
  roots : list DescribeNode;
  slow_threshold : float
}.

Definition tree_find_by_nodeid (self : DescribeTree) (id : string)
  : option DescribeNode :=
  first_found (fun root => find_by_nodeid root id) (roots self).

Definition total_tests (self : DescribeTree) : nat :=
  sum (map test_count (roots self)).
Definition total_passed (self : DescribeTree) : nat :=
  sum (map passed_count (roots self)).
Definition total_failed (self : DescribeTree) : nat :=
  sum (map failed_count (roots self)).
Definition total_skipped (self : DescribeTree) : nat :=
  sum (map skipped_count (roots self)).
Definition total_duration (fsum : list float -> float) (self : DescribeTree)
  : float :=
  fsum (map (aggregate_duration fsum) (roots self)).

End Model.

(** The nodes of a tree, a node before its children, children in order. *)
Fixpoint preorder (n : Model.DescribeNode) : list Model.DescribeNode :=
  n :: flat_map preorder (Model.children n).


(** ** collector.py *)

(** *** What the collector reads off pytest's objects *)

(** An object as [_classify_link] sees it: through [bool()] and
    [inspect.getdoc]. *)
Record PyObject := mkPyObject {
  truthy : bool;
  getdoc : option string
}.

(** A chain link, by the attributes [build_from_items] and [_classify_link]
    probe: [hasattr] answers are booleans, [getattr(.., None)] answers are
    options. *)
Record Link := mkLink {
  link_nodeid : string;
  link_name : string;
  has_fspath : bool;
  has_collect : bool;
  isinstance_DescribeBlock : bool;
  type_name : string;
  has_path : bool;
  has_reportinfo : bool;
  funcobj : option PyObject;
  obj : option PyObject;
  function : option PyObject;
  fixturenames : option (list string)
}.

(** A pytest item is read only through [item.listchain()]. *)
Record Item := mkItem { listchain : list Link }.

(** A test report; [longreprtext] and [wasxfail] may be missing attributes,
    [sections] may be [None]. *)
Record Report := mkReport {
  report_nodeid : string;
  when : string;
  passed : bool;
  failed : bool;
  skipped : bool;
  report_duration : float;
  longreprtext : option string;
  report_sections : option (list (string * string));
  has_wasxfail : bool
}.

Definition BUILTIN_FIXTURES : list string :=
  [ "request"; "pytestconfig"; "tmp_path"; "tmp_path_factory"; "capsys";
    "capfd"; "capsysbinary"; "capfdbinary"; "caplog"; "monkeypatch";
    "recwarn"; "doctest_namespace"; "cache"; "record_property";
    "record_testsuite_property"; "record_xml_attribute"; "pytester";
    "testdir" ].

(** [x in BUILTIN_FIXTURES] *)
Definition is_builtin_fixture (f : string) : bool :=
  existsb (String.eqb f) BUILTIN_FIXTURES.

(** A [str] is truthy when it is not empty. *)
Definition nonempty (s : string) : bool :=
  match s with EmptyString => false | String _ _ => true end.

(** [inspect.getdoc(o) or ""] *)
Definition getdoc_or_empty (o : PyObject) : string :=
  match getdoc o with
  | Some d => if nonempty d then d else ""
  | None => ""
  end.

(** [a or b] on objects that may be [None] *)
Definition py_or (a b : option PyObject) : option PyObject :=
  match a with
  | Some o => if truthy o then a else b
  | None => b
  end.

Definition _map_outcome (report : Report) : TestOutcome :=
  if has_wasxfail report then
    (if passed report then XPASSED else XFAILED)
  else if passed report then PASSED
  else if failed report then FAILED
  else if skipped report then SKIPPED
  else PENDING.

(** *** Links, items and reports as the test-suite makes them *)

Definition session_link : Link :=
  {| link_nodeid := ""; link_name := ""; has_fspath := true;
     has_collect := true; isinstance_DescribeBlock := false;
     type_name := "Session"; has_path := true; has_reportinfo := false;
     funcobj := None; obj := None; function := None; fixturenames := None |}.

Definition module_link (name id : string) : Link :=
  {| link_nodeid := id; link_name := name; has_fspath := true;
     has_collect := true; isinstance_DescribeBlock := false;
     type_name := "Module"; has_path := true; has_reportinfo := true;
     funcobj := None; obj := None; function := None; fixturenames := None |}.

Definition describe_link (name id : string) : Link :=
  {| link_nodeid := id; link_name := name; has_fspath := true;
     has_collect := true; isinstance_DescribeBlock := true;
     type_name := "DescribeBlock"; has_path := true; has_reportinfo := true;
     funcobj := Some {| truthy := true; getdoc := None |};
     obj := Some {| truthy := true; getdoc := None |};
     function := None; fixturenames := None |}.

Definition function_link (name id : string) (fixtures : list string) : Link :=
  {| link_nodeid := id; link_name := name; has_fspath := false;
     has_collect := false; isinstance_DescribeBlock := false;
     type_name := "Function"; has_path := true; has_reportinfo := true;
     funcobj := None; obj := None;
     function := Some {| truthy := true; getdoc := None |};
     fixturenames := Some fixtures |}.

(** Two tests of one describe block of one file. *)
Definition two_items : list Item :=
  [ {| listchain :=
         [ session_link; module_link "test_foo.py" "test_foo.py";
           describe_link "describe_Foo" "test_foo.py::describe_Foo";
           function_link "it_works" "test_foo.py::describe_Foo::it_works" [] ] |};
    {| listchain :=
         [ session_link; module_link "test_foo.py" "test_foo.py";
           describe_link "describe_Foo" "test_foo.py::describe_Foo";
           function_link "it_fails" "test_foo.py::describe_Foo::it_fails"
             ["request"; "capsys"; "my_fixture"; "monkeypatch"; "db"] ] |} ].

(** A describe block right below the session: no file above it. *)
Definition orphan_link : Link :=
  describe_link "describe_Orphan" "test_foo.py::describe_Orphan".

Definition orphan_test_link : Link :=
  function_link "it_works" "test_foo.py::describe_Orphan::it_works" [].

Definition make_report (id phase : string) (p f s : bool) (d : float)
    (text : option string) (xfail : bool) : Report :=
  {| report_nodeid := id; when := phase; passed := p; failed := f;
     skipped := s; report_duration := d; longreprtext := text;
     report_sections := None; has_wasxfail := xfail |}.

(** The float [sum] of interpreters that round every addition. *)
Definition rounding_sum (l : list float) : float :=
  fold_left PrimFloat.add l 0%float.

Section Collector.

(** Whether [from pytest_describe.plugin import DescribeBlock] succeeds. *)
Variable plugin_importable : bool.

Definition _is_describe_block (node : Link) : bool :=
  if plugin_importable then isinstance_DescribeBlock node
  else String.eqb (type_name node) "DescribeBlock".

(** [None] is "skip this link". *)
Definition _classify_link (link : Link)
  : option (NodeType * string * string * list string) :=
  if has_fspath link && has_collect link then
    if _is_describe_block link then
      let doc_src := py_or (funcobj link) (obj link) in
      let docstring :=
        match doc_src with
        | Some o => if truthy o then getdoc_or_empty o else ""
        | None => ""
        end in
      Some (DESCRIBE, Naming.humanize_describe_name (link_name link), docstring, [])
    else if has_path link && negb (has_reportinfo link) then None
    else if has_path link then Some (FILE, link_name link, "", [])
    else None
  else
    match function link with
    | Some fn =>
        Some (TEST, Naming.humanize_test_name (link_name link),
              getdoc_or_empty fn,
              filter (fun f => negb (is_builtin_fixture f))
                (match fixturenames link with Some fs => fs | None => [] end))
    | None => None
    end.

(** *** The store of node objects *)

(** An address is the rank of an object in the order of allocation. *)
Abbreviation addr := nat (only parsing).

(** A [DescribeNode] object; [children] holds references. *)
Record DescribeNode := mkDescribeNode {
  name : string;
  display_name : string;
  node_type : NodeType;
  nodeid : string;
  docstring : string;
  children : list addr;
  result : option TestResult
}.

Record DescribeTree := mkDescribeTree {
  roots : list addr;
  slow_threshold : float
}.

(** [store] lists the node objects in allocation order: the object at
    address [a] is the [a]-th one created. *)
Record TreeCollector := mkTreeCollector {
  store : list DescribeNode;
  tree : DescribeTree;
  _nodes : gmap string addr
}.

(** [TreeCollector(slow_threshold)] *)
Definition new_TreeCollector (slow_threshold : float) : TreeCollector :=
  {| store := []; tree := {| roots := []; slow_threshold := slow_threshold |};
     _nodes := ∅ |}.

(** What a search returns: a node, [None], or no answer at all ([Fault]: the
    nesting of calls went deeper than there are objects, or a reference
    points at no object). *)
Inductive found := Found (a : addr) | NotFound | Fault.

Fixpoint first_found (f : addr -> found) (l : list addr) : found :=
  match l with
  | [] => NotFound
  | x :: rest =>
      match f x with
      | Found a => Found a
      | NotFound => first_found f rest
      | Fault => Fault
      end
  end.

(** [DescribeNode.find_by_nodeid] on the object at [self], nested at most
    [depth] calls deep. *)
Fixpoint find_by_nodeid (depth : nat) (σ : list DescribeNode) (self : addr)
    (id : string) : found :=
  match depth with
  | 0 => Fault
  | S d =>
      match σ !! self with
      | None => Fault
      | Some n =>
          if String.eqb (nodeid n) id then Found self
          else first_found (fun child => find_by_nodeid d σ child id) (children n)
      end
  end.

(** [DescribeTree.find_by_nodeid]; a search nested deeper than the number of
    objects is walking a cycle. *)
Definition tree_find_by_nodeid (σ : list DescribeNode) (t : DescribeTree)
    (id : string) : found :=
  first_found (fun root => find_by_nodeid (length σ) σ root id) (roots t).

Definition with_result (n : DescribeNode) (r : TestResult) : DescribeNode :=
  {| name := name n; display_name := display_name n; node_type := node_type n;
     nodeid := nodeid n; docstring := docstring n; children := children n;
     result := Some r |}.

Definition with_child (child : addr) (n : DescribeNode) : DescribeNode :=
  {| name := name n; display_name := display_name n; node_type := node_type n;
     nodeid := nodeid n; docstring := docstring n;
     children := children n ++ [child]; result := result n |}.

Definition with_store (c : TreeCollector) (σ : list DescribeNode) : TreeCollector :=
  {| store := σ; tree := tree c; _nodes := _nodes c |}.

(** [node = self.tree.find_by_nodeid(report.nodeid)] followed by
    [if node and node.result:] and the assignments [change] to the result;
    [None] when the search gives no answer. *)
Definition on_result (c : TreeCollector) (id : string)
    (change : TestResult -> TestResult) : option TreeCollector :=
  match tree_find_by_nodeid (store c) (tree c) id with
  | Fault => None
  | NotFound => Some c
  | Found a =>
      match store c !! a with
      | None => None
      | Some n =>
          match result n with
          | None => Some c
          | Some r => Some (with_store c (<[a := with_result n (change r)]> (store c)))
          end
      end
  end.

(** [if hasattr(report, "longreprtext") and report.longreprtext: ...] *)
Definition new_longrepr (report : Report) (old : string) : string :=
  match longreprtext report with
  | Some text => if nonempty text then text else old
  | None => old
  end.

(** [list(report.sections) if report.sections else []] *)
Definition new_sections (report : Report) : list (string * string) :=
  match report_sections report with
  | Some (s :: rest) => s :: rest
  | _ => []
  end.

Definition update_from_report (c : TreeCollector) (report : Report)
  : option TreeCollector :=
  if String.eqb (when report) "call" then
    on_result c (report_nodeid report) (fun r =>
      {| outcome := _map_outcome report; duration := report_duration report;
         longrepr := new_longrepr report (longrepr r);
         sections := new_sections report; fixture_names := fixture_names r |})
  else if (String.eqb (when report) "setup" || String.eqb (when report) "teardown")
          && failed report then
    on_result c (report_nodeid report) (fun r =>
      {| outcome := ERROR; duration := report_duration report;
         longrepr := new_longrepr report (longrepr r);
         sections := sections r; fixture_names := fixture_names r |})
  else if String.eqb (when report) "setup" && skipped report then
    on_result c (report_nodeid report) (fun r =>
      {| outcome := _map_outcome report; duration := report_duration report;
         longrepr := longrepr r;
         sections := sections r; fixture_names := fixture_names r |})
  else Some c.

(** [DescribeNode(name=link.name, ...)] followed by
    [if node_type == NodeType.TEST: node.result = TestResult(...)]. *)
Definition new_DescribeNode (link : Link) (ty : NodeType) (shown doc : string)
    (fixture_names : list string) : DescribeNode :=
  {| name := link_name link; display_name := shown; node_type := ty;
     nodeid := link_nodeid link; docstring := doc; children := [];
     result := if bool_decide (ty = TEST)
               then Some (new_TestResult fixture_names) else None |}.

(** The body of [for link in chain]: the collector and [parent_node] before
    and after one link. A new object gets the next address. *)
Definition visit_link (st : TreeCollector * option addr) (link : Link)
  : TreeCollector * option addr :=
  let '(c, parent_node) := st in
  match _nodes c !! link_nodeid link with
  | Some a => (c, Some a)
  | None =>
      match _classify_link link with
      | None => (c, parent_node)
      | Some (ty, shown, doc, fixture_names) =>
          let node := new_DescribeNode link ty shown doc fixture_names in
          let a := length (store c) in
          let σ := store c ++ [node] in
          let registry := <[link_nodeid link := a]> (_nodes c) in
          match parent_node with
          | Some p =>
              ({| store := alter (with_child a) p σ; tree := tree c;
                  _nodes := registry |}, Some a)
          | None =>
              if bool_decide (ty = FILE) then
                ({| store := σ;
                    tree := {| roots := roots (tree c) ++ [a];
                               slow_threshold := slow_threshold (tree c) |};
                    _nodes := registry |}, Some a)
              else ({| store := σ; tree := tree c; _nodes := registry |}, Some a)
          end
      end
  end.

(** The body of [for item in items]. *)
Definition visit_item (c : TreeCollector) (item : Item) : TreeCollector :=
  fst (fold_left visit_link (listchain item) (c, None)).

Definition build_from_items (c : TreeCollector) (items : list Item)
  : TreeCollector :=
  fold_left visit_item items c.

(** *** The tree as [model.py] reads it *)

(** The object at [a] with its children read through their references. *)
Fixpoint node_view (depth : nat) (σ : list DescribeNode) (a : addr)
  : option Model.DescribeNode :=
  match depth with
  | 0 => None
  | S d =>
      n ← σ !! a;
      kids ← mapM (node_view d σ) (children n);
      Some (Model.mkDescribeNode (name n) (display_name n) (node_type n)
              (nodeid n) (docstring n) kids (result n))
  end.

Definition tree_view (c : TreeCollector) : option Model.DescribeTree :=
  rs ← mapM (node_view (length (store c)) (store c)) (roots (tree c));
  Some (Model.mkDescribeTree rs (slow_threshold (tree c))).

(** *** A session, one event at a time *)

(** What happens to a collector: [build_from_items] starts the chain of the
    next item or visits the next link of the current chain;
    [update_from_report] takes a report. *)
Inductive event :=
| NextItem
| NextLink (link : Link)
| NextReport (report : Report).

Definition step (st : TreeCollector * option addr) (e : event)
  : option (TreeCollector * option addr) :=
  match e with
  | NextItem => Some (st.1, None)
  | NextLink link => Some (visit_link st link)
  | NextReport report => c ← update_from_report st.1 report; Some (c, st.2)
  end.

Fixpoint run (es : list event) (st : TreeCollector * option addr)
  : option (TreeCollector * option addr) :=
  match es with
  | [] => Some st
  | e :: rest => st' ← step st e; run rest st'
  end.

(** The events of one [build_from_items(items)] call. *)
Definition build_events (items : list Item) : list event :=
  flat_map (fun item => NextItem :: map NextLink (listchain item)) items.

(** *** Invariants of the collector *)

(** Some object or the root list holds a reference to [a]. *)
Definition referenced (c : TreeCollector) (a : addr) : Prop :=
  a ∈ roots (tree c) ∨ ∃ b n, store c !! b = Some n ∧ a ∈ children n.

(** A walk from the roots along children gets to [a]. *)
Inductive reachable (c : TreeCollector) : addr → Prop :=
| reachable_root r : r ∈ roots (tree c) → reachable c r
| reachable_child b n ch :
    reachable c b → store c !! b = Some n → ch ∈ children n → reachable c ch.



Record consistent (st : TreeCollector * option addr) : Prop := mkConsistent {
  registry_sound : ∀ id a,
    _nodes st.1 !! id = Some a → nodeid <$> store st.1 !! a = Some id;
  registry_complete : ∀ a n,
    store st.1 !! a = Some n → _nodes st.1 !! nodeid n = Some a;
  children_later : ∀ a n,
    store st.1 !! a = Some n →
    Forall (λ ch, a < ch < length (store st.1)) (children n);
  roots_allocated : Forall (λ r, r < length (store st.1)) (roots (tree st.1));
  references_unique :
    NoDup (roots (tree st.1) ++ mjoin (children <$> store st.1));
  children_increasing : ∀ a n,
    store st.1 !! a = Some n → StronglySorted lt (children n);
  roots_increasing : StronglySorted lt (roots (tree st.1));
  parent_allocated : ∀ p, st.2 = Some p → p < length (store st.1)
}.

(** *** What a build adds and what a session keeps *)

(** [n'] is [n] with, maybe, more children at the end. *)
Definition grown (n n' : DescribeNode) : Prop :=
  name n' = name n ∧ display_name n' = display_name n
  ∧ node_type n' = node_type n ∧ nodeid n' = nodeid n
  ∧ docstring n' = docstring n ∧ result n' = result n
  ∧ children n `prefix_of` children n'.

(** [c'] is [c] with, maybe, more objects, roots, children and registered
    identifiers. *)
Definition extends (c c' : TreeCollector) : Prop :=
  (∀ a n, store c !! a = Some n → ∃ n', store c' !! a = Some n' ∧ grown n n')
  ∧ roots (tree c) `prefix_of` roots (tree c')
  ∧ slow_threshold (tree c') = slow_threshold (tree c)
  ∧ _nodes c ⊆ _nodes c'.

(** Roots are files, results belong to tests, and no result names a
    builtin fixture. *)
Definition well_typed (c : TreeCollector) : Prop :=
  (∀ r, r ∈ roots (tree c) → node_type <$> store c !! r = Some FILE)
  ∧ (∀ a n, store c !! a = Some n →
       (is_Some (result n) ↔ node_type n = TEST)
       ∧ ∀ r, result n = Some r →
              Forall (λ f, f ∉ BUILTIN_FIXTURES) (fixture_names r)).

(** [a] is [self] or below it. *)
Inductive below (σ : list DescribeNode) : addr → addr → Prop :=
| below_self self : below σ self self
| below_child self n ch a :
    σ !! self = Some n → ch ∈ children n → below σ ch a → below σ self a.

(** * Properties *)

(** ** Searching the store *)

Lemma first_found_Found f l a :
  first_found f l = Found a → ∃ x, x ∈ l ∧ f x = Found a.
Proof.
  induction l as [|x l IH]; simpl; [done|].
  destruct (f x) eqn:Hx; intros H; simplify_eq.
  - exists x. split; [left | done].
  - destruct (IH H) as (y & Hy & Hfy). exists y. split; [by right | done].
Qed.

Lemma first_found_no_Fault f l :
  Forall (λ x, f x ≠ Fault) l → first_found f l ≠ Fault.
Proof.
  induction 1 as [|x l Hx _ IH]; simpl; [done|].
  destruct (f x); done.
Qed.

(** A search answers with an object that carries the identifier and that
    is the start of the search or somebody's child. *)
Lemma find_by_nodeid_Found depth σ self id a :
  find_by_nodeid depth σ self id = Found a →
  (∃ n, σ !! a = Some n ∧ nodeid n = id) ∧
  (a = self ∨ ∃ b n, σ !! b = Some n ∧ a ∈ children n).
Proof.
  revert self. induction depth as [|d IH]; intros self; simpl; [done|].
  destruct (σ !! self) as [n|] eqn:Hn; [|done].
  destruct (String.eqb (nodeid n) id) eqn:Hid.
  - intros [= <-]. apply String.eqb_eq in Hid. eauto.
  - intros (ch & Hch & Hf)%first_found_Found.
    destruct (IH _ Hf) as [Hobj [-> | Href]]; split; eauto.
Qed.

Lemma tree_find_by_nodeid_Found c id a :
  tree_find_by_nodeid (store c) (tree c) id = Found a →
  (∃ n, store c !! a = Some n ∧ nodeid n = id) ∧ referenced c a.
Proof.
  intros (r & Hr & Hf)%first_found_Found.
  destruct (find_by_nodeid_Found _ _ _ _ _ Hf) as [Hobj [-> | Href]];
    split; auto; [by left | by right].
Qed.

(** With children allocated after their parent, a search from [self] needs
    no more nested calls than there are objects from [self] on. *)
Lemma find_by_nodeid_no_Fault σ id :
  (∀ a n, σ !! a = Some n → Forall (λ ch, a < ch < length σ) (children n)) →
  ∀ depth self,
    self < length σ → length σ ≤ depth + self →
    find_by_nodeid depth σ self id ≠ Fault.
Proof.
  intros Hlater. induction depth as [|d IH]; intros self Hlt Hle; [lia|].
  cbn [find_by_nodeid].
  destruct (lookup_lt_is_Some_2 σ self Hlt) as [n Hn]. rewrite Hn.
  destruct (String.eqb (nodeid n) id); [done|].
  apply first_found_no_Fault.
  eapply Forall_impl; [exact (Hlater _ _ Hn)|].
  intros ch [Hch1 Hch2]. apply IH; lia.
Qed.

Lemma tree_find_by_nodeid_no_Fault st id :
  consistent st → tree_find_by_nodeid (store st.1) (tree st.1) id ≠ Fault.
Proof.
  intros Hc. apply first_found_no_Fault.
  eapply Forall_impl; [exact (roots_allocated _ Hc)|].
  intros r Hr. simpl in Hr.
  apply find_by_nodeid_no_Fault; [exact (children_later _ Hc)| |]; lia.
Qed.

(** ** update_from_report *)

(** The three mutating branches go through [on_result]; what it does when
    the target is found and has a result. *)
Lemma on_result_hit c id change a n r :
  tree_find_by_nodeid (store c) (tree c) id = Found a →
  store c !! a = Some n → result n = Some r →
  on_result c id change
  = Some (with_store c (<[a := with_result n (change r)]> (store c))).
Proof. intros Hf Hn Hr. unfold on_result. by rewrite Hf, Hn, Hr. Qed.

Lemma on_result_miss c id change :
  tree_find_by_nodeid (store c) (tree c) id = NotFound
  ∨ (∃ a n, tree_find_by_nodeid (store c) (tree c) id = Found a
            ∧ store c !! a = Some n ∧ result n = None) →
  on_result c id change = Some c.
Proof.
  unfold on_result. intros [-> | (a & n & -> & -> & ->)]; done.
Qed.

Lemma update_from_report_cases c report :
  update_from_report c report = Some c
  ∨ ∃ change, update_from_report c report
              = on_result c (report_nodeid report) change.
Proof.
  unfold update_from_report.
  repeat (match goal with |- context [if ?b then _ else _] => destruct b end);
    eauto.
Qed.

(** ** build_from_items keeps the collector consistent *)

Lemma visit_link_seen c parent link a :
  _nodes c !! link_nodeid link = Some a →
  visit_link (c, parent) link = (c, Some a).
Proof. intros H. unfold visit_link. by rewrite H. Qed.

Lemma visit_link_skip c parent link :
  _nodes c !! link_nodeid link = None → _classify_link link = None →
  visit_link (c, parent) link = (c, parent).
Proof. intros H1 H2. unfold visit_link. by rewrite H1, H2. Qed.

(** The three ways a new node is attached, in one equation. *)
Lemma visit_link_new c parent link ty shown doc fx :
  _nodes c !! link_nodeid link = None →
  _classify_link link = Some (ty, shown, doc, fx) →
  visit_link (c, parent) link
  = ({| store :=
          from_option (alter (with_child (length (store c)))) id parent
            (store c ++ [new_DescribeNode link ty shown doc fx]);
        tree :=
          {| roots := roots (tree c)
               ++ (if parent is Some _ then []
                   else if bool_decide (ty = FILE) then [length (store c)] else []);
             slow_threshold := slow_threshold (tree c) |};
        _nodes := <[link_nodeid link := length (store c)]> (_nodes c) |},
     Some (length (store c))).
Proof.
  intros H1 H2. unfold visit_link. rewrite H1, H2.
  destruct c as [σ [rs thr] reg]; simpl.
  destruct parent as [p|]; simpl.
  - by rewrite app_nil_r.
  - case_bool_decide; simpl; by rewrite ?app_nil_r.
Qed.

Lemma join_children_alter σ p a n :
  σ !! p = Some n →
  mjoin (children <$> alter (with_child a) p σ)
  ≡ₚ mjoin (children <$> σ) ++ [a].
Proof.
  revert p. induction σ as [|m σ IH]; intros [|p] Hp; simplify_eq/=.
  - by rewrite <- (assoc_L (++)), (comm (++) [a]), (assoc_L (++)).
  - rewrite (IH _ Hp). by rewrite (assoc_L (++)).
Qed.

Lemma elem_of_join_children σ (a : addr) :
  a ∈ mjoin (children <$> σ) ↔ ∃ b n, σ !! b = Some n ∧ a ∈ children n.
Proof.
  rewrite list_elem_of_join. split.
  - intros (cs & Ha & (n & -> & (b & Hb)%list_elem_of_lookup)%list_elem_of_fmap).
    eauto.
  - intros (b & n & Hb & Ha). exists (children n). split; [done|].
    apply list_elem_of_fmap. exists n. split; [done|].
    by eapply list_elem_of_lookup_2.
Qed.

(** The store once a new [node] has its address and, with a parent, is
    appended to the parent's children. *)
Lemma attached_length (σ : list DescribeNode) parent node :
  length (from_option (alter (with_child (length σ))) id parent (σ ++ [node]))
  = S (length σ).
Proof.
  destruct parent; simpl; rewrite ?length_alter, length_app; simpl; lia.
Qed.

Lemma attached_lookup (σ : list DescribeNode) parent node b n' :
  (∀ p, parent = Some p → p < length σ) →
  from_option (alter (with_child (length σ))) id parent (σ ++ [node]) !! b
    = Some n' →
  (b = length σ ∧ n' = node)
  ∨ (∃ n, σ !! b = Some n
          ∧ ((parent = Some b ∧ n' = with_child (length σ) n)
             ∨ (parent ≠ Some b ∧ n' = n))).
Proof.
  intros Hp Hb.
  assert (b < S (length σ)) as Hlt.
  { rewrite <- (attached_length σ parent node). by eapply lookup_lt_Some. }
  destruct (decide (b = length σ)) as [->|Hne].
  - left. split; [done|]. destruct parent as [p|]; simpl in Hb.
    + specialize (Hp p eq_refl).
      rewrite list_lookup_alter_ne, list_lookup_middle in Hb by lia. congruence.
    + rewrite list_lookup_middle in Hb by done. congruence.
  - right. destruct parent as [p|]; simpl in Hb.
    + destruct (decide (p = b)) as [->|Hpb].
      * rewrite list_lookup_alter_eq, lookup_app_l in Hb by lia.
        destruct (σ !! b) as [n|]; simplify_eq/=. eauto.
      * rewrite list_lookup_alter_ne, lookup_app_l in Hb by lia.
        exists n'. split; [done|]. right. split; congruence.
    + rewrite lookup_app_l in Hb by lia. exists n'. split; [done|]. by right.
Qed.

Lemma attached_old (σ : list DescribeNode) parent node b n :
  σ !! b = Some n →
  ∃ n', from_option (alter (with_child (length σ))) id parent (σ ++ [node]) !! b
          = Some n'
        ∧ nodeid n' = nodeid n ∧ result n' = result n
        ∧ node_type n' = node_type n.
Proof.
  intros Hb. pose proof (lookup_lt_Some _ _ _ Hb) as Hlt.
  destruct parent as [p|]; simpl.
  - destruct (decide (p = b)) as [->|Hpb].
    + exists (with_child (length σ) n).
      by rewrite list_lookup_alter_eq, lookup_app_l, Hb by lia.
    + exists n. by rewrite list_lookup_alter_ne, lookup_app_l by lia.
  - exists n. by rewrite lookup_app_l by lia.
Qed.

Lemma attached_new (σ : list DescribeNode) parent node :
  (∀ p, parent = Some p → p < length σ) →
  ∃ n', from_option (alter (with_child (length σ))) id parent (σ ++ [node])
          !! length σ = Some n'
        ∧ nodeid n' = nodeid node ∧ result n' = result node
        ∧ node_type n' = node_type node ∧ children n' = children node.
Proof.
  intros Hp. exists node. destruct parent as [p|]; simpl.
  - specialize (Hp p eq_refl).
    by rewrite list_lookup_alter_ne, list_lookup_middle by lia.
  - by rewrite list_lookup_middle.
Qed.

Lemma attached_references (σ : list DescribeNode) parent node :
  (∀ p, parent = Some p → p < length σ) → children node = [] →
  mjoin (children <$>
           from_option (alter (with_child (length σ))) id parent (σ ++ [node]))
  ≡ₚ mjoin (children <$> σ) ++ (if parent is Some _ then [length σ] else []).
Proof.
  intros Hp Hnode. destruct parent as [p|]; simpl.
  - destruct (lookup_lt_is_Some_2 σ p (Hp p eq_refl)) as [n Hn].
    rewrite (join_children_alter _ p _ n) by (by rewrite lookup_app_l by eauto).
    rewrite fmap_app, join_app. simpl. by rewrite Hnode, !app_nil_r.
  - rewrite fmap_app, join_app. simpl. by rewrite Hnode, !app_nil_r.
Qed.

Lemma consistent_new thr : consistent (new_TreeCollector thr, None).
Proof.
  constructor; simpl; try done.
  - constructor.
  - constructor.
Qed.

Lemma references_allocated st x :
  consistent st →
  x ∈ roots (tree st.1) ++ mjoin (children <$> store st.1) →
  x < length (store st.1).
Proof.
  intros Hc [Hx | Hx]%elem_of_app.
  - pose proof (roots_allocated _ Hc) as Hr.
    rewrite Forall_forall in Hr. by apply Hr.
  - apply elem_of_join_children in Hx as (b & n & Hb & Hx).
    pose proof (children_later _ Hc _ _ Hb) as Hch.
    rewrite Forall_forall in Hch. by apply Hch.
Qed.

Lemma snoc_increasing (l : list nat) a :
  StronglySorted lt l → Forall (λ x, x < a) l → StronglySorted lt (l ++ [a]).
Proof.
  intros Hl Hlt. apply StronglySorted_app_2; [|done|repeat constructor].
  intros x1 x2 Hx1 ->%list_elem_of_singleton.
  rewrite Forall_forall in Hlt. by apply Hlt.
Qed.

Lemma consistent_visit_link st link :
  consistent st → consistent (visit_link st link).
Proof.
  destruct st as [c parent]. intros Hc.
  destruct (_nodes c !! link_nodeid link) as [a0|] eqn:Hreg.
  { rewrite (visit_link_seen _ _ _ _ Hreg).
    destruct Hc; constructor; simpl in *; try done.
    intros p [= <-]. apply registry_sound0 in Hreg.
    destruct (store c !! a0) eqn:E; [|done]. by eapply lookup_lt_Some. }
  destruct (_classify_link link) as [[[[ty shown] doc] fx]|] eqn:Hcl;
    [|by rewrite visit_link_skip].
  rewrite (visit_link_new _ _ _ _ _ _ _ Hreg Hcl).
  pose proof (parent_allocated _ Hc) as Hp. simpl in Hp.
  pose proof (λ x, references_allocated _ x Hc) as Hrefs. simpl in Hrefs.
  set (node := new_DescribeNode link ty shown doc fx).
  assert (children node = []) as Hkids by done.
  assert (nodeid node = link_nodeid link) as Hid by done.
  constructor; simpl.
  - intros id b. rewrite lookup_insert. case_decide as Hd.
    + intros [= <-]. subst id.
      destruct (attached_new (store c) parent node Hp) as (n' & -> & Hn' & _).
      simpl. congruence.
    + intros Hb%(registry_sound _ Hc). simpl in Hb.
      destruct (store c !! b) as [n|] eqn:E; [|done].
      destruct (attached_old (store c) parent node _ _ E) as (n' & -> & Hn' & _).
      simpl in *. congruence.
  - intros b n' Hb.
    apply (attached_lookup _ _ _ _ _ Hp) in Hb as [[-> ->] | (n & Hn & Hcase)].
    + rewrite Hid. apply lookup_insert_eq.
    + assert (nodeid n' = nodeid n) as -> by (by destruct Hcase as [[_ ->] | [_ ->]]).
      pose proof (registry_complete _ Hc _ _ Hn) as Hold. simpl in Hold.
      rewrite lookup_insert_ne; [done|]. intros Heq. congruence.
  - intros b n' Hb. rewrite attached_length.
    apply (attached_lookup _ _ _ _ _ Hp) in Hb as [[-> ->] | (n & Hn & Hcase)].
    + rewrite Hkids. constructor.
    + pose proof (children_later _ Hc _ _ Hn) as Hold. simpl in Hold.
      pose proof (lookup_lt_Some _ _ _ Hn) as Hlt.
      destruct Hcase as [[_ ->] | [_ ->]]; simpl.
      * apply Forall_app. split; [|repeat constructor; lia].
        eapply Forall_impl; [exact Hold|]. simpl. lia.
      * eapply Forall_impl; [exact Hold|]. simpl. lia.
  - rewrite attached_length. apply Forall_app. split.
    + eapply Forall_impl; [exact (roots_allocated _ Hc)|]. simpl. lia.
    + destruct parent; [constructor|].
      case_bool_decide; repeat constructor.
  - rewrite (attached_references _ _ _ Hp Hkids).
    pose proof (references_unique _ Hc) as Hnd. simpl in Hnd.
    assert (NoDup ((roots (tree c) ++ mjoin (children <$> store c))
                   ++ [length (store c)])) as Hnd'.
    { apply NoDup_app. split_and!; [done| |apply NoDup_singleton].
      intros x Hx ->%list_elem_of_singleton. apply Hrefs in Hx. lia. }
    destruct parent as [p|].
    + by rewrite app_nil_r, (assoc_L (++)).
    + case_bool_decide; rewrite !app_nil_r; [|done].
      assert ((roots (tree c) ++ [length (store c)])
                ++ mjoin (children <$> store c)
              ≡ₚ (roots (tree c) ++ mjoin (children <$> store c))
                 ++ [length (store c)]) as ->; [|done].
      rewrite <- !(assoc_L (++)). f_equiv. apply (comm (++)).
  - intros b n' Hb.
    apply (attached_lookup _ _ _ _ _ Hp) in Hb as [[-> ->] | (n & Hn & Hcase)].
    + rewrite Hkids. constructor.
    + pose proof (children_increasing _ Hc _ _ Hn) as Hold.
      destruct Hcase as [[_ ->] | [_ ->]]; simpl; [|done].
      apply snoc_increasing; [done|].
      eapply Forall_impl; [exact (children_later _ Hc _ _ Hn)|]. simpl. lia.
  - pose proof (roots_increasing _ Hc) as Hold. simpl in Hold.
    destruct parent; [by rewrite app_nil_r|].
    case_bool_decide; [|by rewrite app_nil_r].
    apply snoc_increasing; [done|]. exact (roots_allocated _ Hc).
  - intros p [= <-]. rewrite attached_length. lia.
Qed.

(** ** update_from_report keeps the collector consistent *)

Lemma with_result_lookup (σ : list DescribeNode) a n r b n' :
  σ !! a = Some n → <[a := with_result n r]> σ !! b = Some n' →
  ∃ m, σ !! b = Some m ∧ nodeid n' = nodeid m ∧ children n' = children m
       ∧ node_type n' = node_type m
       ∧ (result n' = result m ∨ (b = a ∧ m = n ∧ result n' = Some r)).
Proof.
  intros Ha [(-> & <- & _) | [Hne Hb]]%list_lookup_insert_Some.
  - exists n. split_and!; auto.
  - exists n'. split_and!; auto.
Qed.

Lemma with_result_fmap {B} (f : DescribeNode → B) (σ : list DescribeNode) a n r :
  (∀ m, f (with_result m r) = f m) → σ !! a = Some n →
  f <$> <[a := with_result n r]> σ = f <$> σ.
Proof.
  intros Hf Ha. rewrite list_fmap_insert, Hf.
  apply list_insert_id. by rewrite list_lookup_fmap, Ha.
Qed.

Lemma consistent_with_result c parent a n r :
  consistent (c, parent) → store c !! a = Some n →
  consistent (with_store c (<[a := with_result n r]> (store c)), parent).
Proof.
  intros Hc Ha. constructor; simpl; rewrite ?length_insert.
  - intros id b Hb%(registry_sound _ Hc). simpl in Hb.
    rewrite <- list_lookup_fmap in *. by rewrite with_result_fmap.
  - intros b n' (m & Hm & -> & _)%(with_result_lookup _ _ _ _ _ _ Ha).
    exact (registry_complete _ Hc _ _ Hm).
  - intros b n' (m & Hm & _ & -> & _)%(with_result_lookup _ _ _ _ _ _ Ha).
    exact (children_later _ Hc _ _ Hm).
  - exact (roots_allocated _ Hc).
  - rewrite with_result_fmap by done. exact (references_unique _ Hc).
  - intros b n' (m & Hm & _ & -> & _)%(with_result_lookup _ _ _ _ _ _ Ha).
    exact (children_increasing _ Hc _ _ Hm).
  - exact (roots_increasing _ Hc).
  - exact (parent_allocated _ Hc).
Qed.

(** What a call of [on_result] can do to a collector. *)
Lemma on_result_Some c id change c' :
  on_result c id change = Some c' →
  c' = c
  ∨ ∃ a n r, referenced c a ∧ store c !! a = Some n ∧ nodeid n = id
             ∧ result n = Some r
             ∧ c' = with_store c (<[a := with_result n (change r)]> (store c)).
Proof.
  unfold on_result.
  destruct (tree_find_by_nodeid _ _ _) as [a| |] eqn:Hf; [|naive_solver..].
  apply tree_find_by_nodeid_Found in Hf as [(n & Hn & Hid) Href].
  rewrite Hn. destruct (result n) as [r|] eqn:Hr; [|naive_solver].
  intros [= <-]. right. exists a, n, r. done.
Qed.

Lemma update_from_report_Some c report c' :
  update_from_report c report = Some c' →
  c' = c
  ∨ ∃ a n r, referenced c a ∧ store c !! a = Some n
             ∧ nodeid n = report_nodeid report
             ∧ c' = with_store c (<[a := with_result n r]> (store c)).
Proof.
  destruct (update_from_report_cases c report) as [-> | [change ->]].
  - left. congruence.
  - intros [-> | (a & n & r & ? & ? & ? & ? & ->)]%on_result_Some; [by left|].
    right. eauto 10.
Qed.

Lemma consistent_update_from_report c parent report c' :
  consistent (c, parent) → update_from_report c report = Some c' →
  consistent (c', parent).
Proof.
  intros Hc [-> | (a & n & r & _ & Hn & _ & ->)]%update_from_report_Some;
    [done|]. by apply consistent_with_result.
Qed.

(** On a consistent collector a report is always taken: the search gives an
    answer. *)
Lemma update_from_report_total c parent report :
  consistent (c, parent) → is_Some (update_from_report c report).
Proof.
  intros Hc.
  destruct (update_from_report_cases c report) as [-> | [change ->]]; [done|].
  unfold on_result.
  pose proof (tree_find_by_nodeid_no_Fault _ (report_nodeid report) Hc) as Hnf.
  simpl in Hnf.
  destruct (tree_find_by_nodeid _ _ _) as [a| |] eqn:Hf; [|done..].
  apply tree_find_by_nodeid_Found in Hf as [(n & -> & _) _].
  by destruct (result n).
Qed.

(** ** Sessions *)

Lemma consistent_step st e :
  consistent st → ∃ st', step st e = Some st' ∧ consistent st'.
Proof.
  intros Hc. destruct e as [|link|report]; simpl.
  - eexists. split; [done|]. destruct Hc; constructor; simpl in *; done.
  - eexists. split; [done|]. by apply consistent_visit_link.
  - destruct st as [c parent].
    destruct (update_from_report_total c parent report Hc) as [c' Hc'].
    simpl. rewrite Hc'. simpl. eexists. split; [done|].
    by eapply consistent_update_from_report.
Qed.

Lemma consistent_run es st :
  consistent st → ∃ st', run es st = Some st' ∧ consistent st'.
Proof.
  revert st. induction es as [|e es IH]; intros st Hc; simpl; [eauto|].
  destruct (consistent_step st e Hc) as (st1 & -> & Hc1). simpl. eauto.
Qed.





(** ** A second visit changes nothing *)












Lemma node_per_identifier st a b n m :
  consistent st → store st.1 !! a = Some n → store st.1 !! b = Some m →
  nodeid n = nodeid m → a = b.
Proof.
  intros Hc Ha Hb Hid.
  pose proof (registry_complete _ Hc _ _ Ha) as Hra.
  pose proof (registry_complete _ Hc _ _ Hb) as Hrb. congruence.
Qed.

(** ** Nodes nobody refers to *)

Lemma reachable_referenced c a : reachable c a → referenced c a.
Proof. destruct 1; [by left | right; eauto]. Qed.

Lemma visit_link_referenced st link a :
  consistent st → a < length (store st.1) →
  referenced (visit_link st link).1 a → referenced st.1 a.
Proof.
  destruct st as [c parent]. intros Hc Ha. simpl in Ha.
  destruct (_nodes c !! link_nodeid link) as [a0|] eqn:Hreg.
  { by rewrite (visit_link_seen _ _ _ _ Hreg). }
  destruct (_classify_link link) as [[[[ty shown] doc] fx]|] eqn:Hcl;
    [|by rewrite visit_link_skip].
  rewrite (visit_link_new _ _ _ _ _ _ _ Hreg Hcl).
  pose proof (parent_allocated _ Hc) as Hp. simpl in Hp.
  intros [Hroot | (b & n' & Hb & Hin)]; simpl in *.
  - apply elem_of_app in Hroot as [Hroot | Hnew]; [by left|].
    destruct parent; [by apply elem_of_nil in Hnew|].
    case_bool_decide; [|by apply elem_of_nil in Hnew].
    apply list_elem_of_singleton in Hnew. lia.
  - apply (attached_lookup _ _ _ _ _ Hp) in Hb as [[-> ->] | (n & Hn & Hcase)].
    + by apply elem_of_nil in Hin.
    + right. exists b, n. split; [done|].
      destruct Hcase as [[_ ->] | [_ ->]]; [|done]. simpl in Hin.
      apply elem_of_app in Hin as [Hin | Hnew]; [done|].
      apply list_elem_of_singleton in Hnew. lia.
Qed.

Lemma update_from_report_referenced c report c' a :
  update_from_report c report = Some c' → referenced c' a → referenced c a.
Proof.
  intros [-> | (a0 & n & r & _ & Hn & _ & ->)]%update_from_report_Some; [done|].
  intros [Hroot | (b & n' & Hb & Hin)]; simpl in *; [by left|].
  apply (with_result_lookup _ _ _ _ _ _ Hn) in Hb as (m & Hm & _ & Hkids & _).
  right. exists b, m. by rewrite <- Hkids.
Qed.

(** A visit never touches the identifier, the type or the result of an
    object that exists. *)
Lemma visit_link_keeps st link a n :
  store st.1 !! a = Some n →
  ∃ n', store (visit_link st link).1 !! a = Some n'
        ∧ nodeid n' = nodeid n ∧ result n' = result n
        ∧ node_type n' = node_type n.
Proof.
  destruct st as [c parent]. intros Ha. simpl in Ha.
  destruct (_nodes c !! link_nodeid link) as [a0|] eqn:Hreg.
  { rewrite (visit_link_seen _ _ _ _ Hreg). eauto. }
  destruct (_classify_link link) as [[[[ty shown] doc] fx]|] eqn:Hcl;
    [|rewrite visit_link_skip; eauto].
  rewrite (visit_link_new _ _ _ _ _ _ _ Hreg Hcl). simpl.
  by apply attached_old.
Qed.

(** A report never touches an object nobody refers to. *)
Lemma update_from_report_keeps c report c' a :
  update_from_report c report = Some c' → ¬ referenced c a →
  store c' !! a = store c !! a.
Proof.
  intros [-> | (a0 & n & r & Href & Hn & _ & ->)]%update_from_report_Some Ha;
    [done|]. simpl. apply list_lookup_insert_ne. by intros ->.
Qed.

Lemma unreferenced_run es st st' a n :
  consistent st → run es st = Some st' →
  store st.1 !! a = Some n → ¬ referenced st.1 a →
  ¬ referenced st'.1 a
  ∧ ∃ n', store st'.1 !! a = Some n' ∧ nodeid n' = nodeid n
          ∧ result n' = result n ∧ node_type n' = node_type n.
Proof.
  revert st n. induction es as [|e es IH]; intros st n Hc Hrun Ha Hun; simpl in *.
  { injection Hrun as <-. eauto 10. }
  destruct (consistent_step st e Hc) as (st1 & Hstep & Hc1).
  rewrite Hstep in Hrun. simpl in Hrun.
  assert (¬ referenced st1.1 a
          ∧ ∃ n1, store st1.1 !! a = Some n1 ∧ nodeid n1 = nodeid n
                  ∧ result n1 = result n ∧ node_type n1 = node_type n)
    as (Hun1 & n1 & Ha1 & Hid1 & Hres1 & Hty1).
  { destruct e as [|link|report]; simpl in Hstep.
    - injection Hstep as <-. simpl. eauto 10.
    - injection Hstep as <-. split.
      + intros Href. apply Hun. eapply visit_link_referenced; [done| |done].
        by eapply lookup_lt_Some.
      + by apply visit_link_keeps.
    - destruct (update_from_report st.1 report) as [c1|] eqn:Hup; [|done].
      injection Hstep as <-. simpl. split.
      + intros Href. apply Hun. by eapply update_from_report_referenced.
      + rewrite (update_from_report_keeps _ _ _ _ Hup Hun). eauto 10. }
  destruct (IH st1 n1 Hc1 Hrun Ha1 Hun1) as (Hun' & n' & Ha' & Hid' & Hres' & Hty').
  split; [done|]. exists n'. split_and!; congruence.
Qed.

(** The search never answers with an object nobody refers to, and finds
    nothing under its identifier. *)
Lemma unreferenced_not_found st a n :
  consistent st → store st.1 !! a = Some n → ¬ referenced st.1 a →
  tree_find_by_nodeid (store st.1) (tree st.1) (nodeid n) = NotFound.
Proof.
  intros Hc Ha Hun.
  pose proof (tree_find_by_nodeid_no_Fault st (nodeid n) Hc) as Hnf.
  destruct (tree_find_by_nodeid _ _ _) as [b| |] eqn:Hf; [|done..].
  apply tree_find_by_nodeid_Found in Hf as [(m & Hm & Hid) Href].
  by rewrite (node_per_identifier st a b n m Hc Ha Hm) in Hun.
Qed.

(** A new node that is neither attached to a parent nor a file. *)
Lemma visit_link_orphan c link ty shown doc fx :
  consistent (c, None) →
  _nodes c !! link_nodeid link = None →
  _classify_link link = Some (ty, shown, doc, fx) → ty ≠ FILE →
  store (visit_link (c, None) link).1 !! length (store c)
    = Some (new_DescribeNode link ty shown doc fx)
  ∧ ¬ referenced (visit_link (c, None) link).1 (length (store c)).
Proof.
  intros Hc Hreg Hcl Hty. rewrite (visit_link_new _ _ _ _ _ _ _ Hreg Hcl). simpl.
  rewrite bool_decide_eq_false_2, app_nil_r by done.
  split; [by rewrite list_lookup_middle|].
  intros [Hroot | (b & n & Hb & Hin)]; simpl in *.
  - pose proof (roots_allocated _ Hc) as Hr. rewrite Forall_forall in Hr.
    apply Hr in Hroot. simpl in Hroot. lia.
  - apply lookup_snoc_Some in Hb as [[Hlt Hb] | [_ <-]].
    + pose proof (children_later _ Hc _ _ Hb) as Hch.
      rewrite Forall_forall in Hch. apply Hch in Hin. simpl in Hin. lia.
    + by apply elem_of_nil in Hin.
Qed.

(** ** The tree that [model.py] reads *)

Lemma node_view_total σ :
  (∀ a n, σ !! a = Some n → Forall (λ ch, a < ch < length σ) (children n)) →
  ∀ depth a,
    a < length σ → length σ ≤ depth + a → is_Some (node_view depth σ a).
Proof.
  intros Hlater. induction depth as [|d IH]; intros a Hlt Hle; [lia|].
  cbn [node_view].
  destruct (lookup_lt_is_Some_2 σ a Hlt) as [n Hn]. rewrite Hn. simpl.
  assert (is_Some (mapM (node_view d σ) (children n))) as [kids ->].
  { apply mapM_is_Some_2. eapply Forall_impl; [exact (Hlater _ _ Hn)|].
    intros ch [Hch1 Hch2]. apply IH; lia. }
  done.
Qed.

Lemma tree_view_total st : consistent st → is_Some (tree_view st.1).
Proof.
  intros Hc. unfold tree_view.
  assert (is_Some (mapM (node_view (length (store st.1)) (store st.1))
                     (roots (tree st.1)))) as [rs ->]; [|done].
  apply mapM_is_Some_2. eapply Forall_impl; [exact (roots_allocated _ Hc)|].
  intros r Hr. simpl in Hr.
  apply node_view_total; [exact (children_later _ Hc)| |]; lia.
Qed.

(** The view from [b] does not depend on an object that no object refers
    to. *)
Lemma node_view_frame σ a x :
  (∀ b n, σ !! b = Some n → a ∉ children n) →
  ∀ depth b, b ≠ a → node_view depth (<[a := x]> σ) b = node_view depth σ b.
Proof.
  intros Hun. induction depth as [|d IH]; intros b Hb; [done|].
  cbn [node_view]. rewrite list_lookup_insert_ne by done.
  destruct (σ !! b) as [n|] eqn:Hn; [|done]. simpl.
  rewrite (Forall_mapM_ext _ (node_view d σ)); [done|].
  apply Forall_forall. intros ch Hch. apply IH. intros ->.
  by apply (Hun _ _ Hn).
Qed.

Lemma tree_view_frame c a x :
  ¬ referenced c a →
  tree_view (with_store c (<[a := x]> (store c))) = tree_view c.
Proof.
  intros Hun. unfold tree_view. simpl. rewrite length_insert.
  rewrite (Forall_mapM_ext _ (node_view (length (store c)) (store c)));
    [done|].
  apply Forall_forall. intros r Hr. apply node_view_frame.
  - intros b n Hb Hin. apply Hun. right. eauto.
  - intros ->. apply Hun. by left.
Qed.

(** The search on the store agrees with [model.py]'s search on the tree
    read from the store. *)
Lemma find_by_nodeid_view σ id depth a t :
  node_view depth σ a = Some t →
  match find_by_nodeid depth σ a id with
  | Found b =>
      ∃ d' t', node_view d' σ b = Some t'
               ∧ Model.find_by_nodeid t id = Some t'
  | NotFound => Model.find_by_nodeid t id = None
  | Fault => False
  end.
Proof.
  revert a t. induction depth as [|d IH]; intros a t Hv; [done|].
  cbn [node_view] in Hv. cbn [find_by_nodeid].
  destruct (σ !! a) as [n|] eqn:Hn; [|done]. simpl in Hv.
  destruct (mapM (node_view d σ) (children n)) as [kids|] eqn:Hkids; [|done].
  simpl in Hv. injection Hv as <-. simpl.
  destruct (String.eqb (nodeid n) id) eqn:Hid.
  { exists (S d). eexists. split; [|done].
    cbn [node_view]. rewrite Hn. simpl. by rewrite Hkids. }
  clear Hn Hid. revert kids Hkids.
  induction (children n) as [|ch chs IHchs]; intros kids Hkids.
  { injection Hkids as <-. done. }
  cbn in Hkids.
  destruct (node_view d σ ch) as [k|] eqn:Hk; [|done]. simpl in Hkids.
  destruct (mapM (node_view d σ) chs) as [ks|] eqn:Hks; [|done].
  injection Hkids as <-. specialize (IH _ _ Hk). simpl.
  destruct (find_by_nodeid d σ ch id) as [b| |]; [| |done].
  - destruct IH as (d' & t' & Hv' & ->). eauto.
  - rewrite IH. by apply IHchs.
Qed.

Lemma tree_find_by_nodeid_view c id t :
  tree_view c = Some t →
  match tree_find_by_nodeid (store c) (tree c) id with
  | Found b =>
      ∃ d' t', node_view d' (store c) b = Some t'
               ∧ Model.tree_find_by_nodeid t id = Some t'
  | NotFound => Model.tree_find_by_nodeid t id = None
  | Fault => False
  end.
Proof.
  unfold tree_view, tree_find_by_nodeid, Model.tree_find_by_nodeid.
  destruct (mapM _ (roots (tree c))) as [rs|] eqn:Hrs; [|done].
  intros [= <-]. simpl. revert rs Hrs.
  induction (roots (tree c)) as [|r rest IH]; intros rs Hrs.
  { injection Hrs as <-. done. }
  cbn in Hrs.
  destruct (node_view _ _ r) as [k|] eqn:Hk; [|done]. simpl in Hrs.
  destruct (mapM _ rest) as [ks|] eqn:Hks; [|done].
  injection Hrs as <-. simpl.
  pose proof (find_by_nodeid_view _ id _ _ _ Hk) as Hr.
  destruct (find_by_nodeid _ _ r id) as [b| |]; [| |done].
  - destruct Hr as (d' & t' & Hv' & ->). eauto.
  - rewrite Hr. by apply IH.
Qed.

(** ** The claims about the collector *)

(** C1 (as amended). A chain link that has [fspath] and [collect] and is not
    a describe block is skipped when it has a [path] but no [reportinfo] (the
    session), is a FILE named by its raw name, with an empty docstring and no
    fixture names, when it has both a [path] and [reportinfo], and is skipped
    when it has no [path]. *)
Theorem classify_collector_link link :
  has_fspath link = true → has_collect link = true →
  _is_describe_block link = false →
  (has_path link = true → has_reportinfo link = false →
   _classify_link link = None)
  ∧ (has_path link = true → has_reportinfo link = true →
     _classify_link link = Some (FILE, link_name link, "", []))
  ∧ (has_path link = false → _classify_link link = None).
Proof.
  intros Hfs Hco Hdb. unfold _classify_link. rewrite Hfs, Hco, Hdb. simpl.
  split_and!.
  - by intros -> ->.
  - by intros -> ->.
  - by intros ->.
Qed.

(** C3. A "setup" or "teardown" report with [failed] set, whose target is
    found and has a result: the outcome becomes ERROR whatever [wasxfail]
    says, the duration becomes the report's, the long description is replaced
    only by a non-empty one, and sections and fixture names stay; nothing
    else in the collector changes. *)
Theorem setup_teardown_failure_is_error c report a n r :
  when report = "setup" ∨ when report = "teardown" →
  failed report = true →
  tree_find_by_nodeid (store c) (tree c) (report_nodeid report) = Found a →
  store c !! a = Some n → result n = Some r →
  ∃ r',
    update_from_report c report
    = Some (with_store c (<[a := with_result n r']> (store c)))
    ∧ outcome r' = ERROR
    ∧ duration r' = report_duration report
    ∧ (∀ text, longreprtext report = Some text → text ≠ "" → longrepr r' = text)
    ∧ (longreprtext report = None ∨ longreprtext report = Some "" →
       longrepr r' = longrepr r)
    ∧ sections r' = sections r
    ∧ fixture_names r' = fixture_names r.
Proof.
  intros Hwhen Hfailed Hfind Hn Hr. unfold update_from_report.
  assert (String.eqb (when report) "call" = false) as ->.
  { by destruct Hwhen as [-> | ->]. }
  assert (String.eqb (when report) "setup" || String.eqb (when report) "teardown"
          = true) as ->.
  { by destruct Hwhen as [-> | ->]. }
  rewrite Hfailed. simpl. rewrite (on_result_hit _ _ _ _ _ _ Hfind Hn Hr).
  eexists. split; [done|]. simpl. unfold new_longrepr. split_and!; try done.
  - intros text -> Htext. by destruct text.
  - by intros [-> | ->].
Qed.

(** C5. A "call" report whose target is found and has a result: the outcome
    becomes [_map_outcome] of the report, the duration the report's, the
    sections the report's (none when the report has none), the long
    description is replaced only by a non-empty one, and the fixture names
    stay; nothing else in the collector changes. *)
Theorem call_report_overwrites c report a n r :
  when report = "call" →
  tree_find_by_nodeid (store c) (tree c) (report_nodeid report) = Found a →
  store c !! a = Some n → result n = Some r →
  ∃ r',
    update_from_report c report
    = Some (with_store c (<[a := with_result n r']> (store c)))
    ∧ outcome r' = _map_outcome report
    ∧ duration r' = report_duration report
    ∧ sections r' = default [] (report_sections report)
    ∧ (∀ text, longreprtext report = Some text → text ≠ "" → longrepr r' = text)
    ∧ (longreprtext report = None ∨ longreprtext report = Some "" →
       longrepr r' = longrepr r)
    ∧ fixture_names r' = fixture_names r.
Proof.
  intros Hwhen Hfind Hn Hr. unfold update_from_report. rewrite Hwhen. simpl.
  rewrite (on_result_hit _ _ _ _ _ _ Hfind Hn Hr).
  eexists. split; [done|]. simpl. unfold new_longrepr, new_sections.
  split_and!; try done.
  - by destruct (report_sections report) as [[|s rest]|].
  - intros text -> Htext. by destruct text.
  - by intros [-> | ->].
Qed.

(** C7. A report whose target is not found, or is found without a result,
    is taken without an error and leaves the collector as it is: the same
    objects, the same roots, the same registry. *)
Theorem report_without_target_is_ignored c report :
  tree_find_by_nodeid (store c) (tree c) (report_nodeid report) = NotFound
  ∨ (∃ a n, tree_find_by_nodeid (store c) (tree c) (report_nodeid report)
            = Found a
            ∧ store c !! a = Some n ∧ result n = None) →
  update_from_report c report = Some c.
Proof.
  intros Hmiss.
  destruct (update_from_report_cases c report) as [-> | [change ->]]; [done|].
  by apply on_result_miss.
Qed.

(** ** Chains under one ancestor *)

















(** C10. A node created with no parent resolved and a type other than FILE
    stays out of the tree whatever the session does next: no walk from the
    roots gets to it, a search for its identifier finds nothing, every report
    is taken and leaves the node as it is, so its result (PENDING, duration 0,
    for a TEST) never changes, and the tree that the totals are computed from
    is the same whatever the node holds. *)
Theorem orphan_is_never_updated thr es1 c link ty shown doc fx es2 :
  run es1 (new_TreeCollector thr, None) = Some (c, None) →
  _nodes c !! link_nodeid link = None →
  _classify_link link = Some (ty, shown, doc, fx) →
  ty ≠ FILE →
  ∃ c2 parent2 n,
    run (NextLink link :: es2) (c, None) = Some (c2, parent2)
    ∧ store c2 !! length (store c) = Some n
    ∧ nodeid n = link_nodeid link
    ∧ node_type n = ty
    ∧ result n = (if bool_decide (ty = TEST) then Some (new_TestResult fx)
                  else None)
    ∧ ¬ reachable c2 (length (store c))
    ∧ tree_find_by_nodeid (store c2) (tree c2) (link_nodeid link) = NotFound
    ∧ (∀ report, ∃ c3,
         update_from_report c2 report = Some c3
         ∧ store c3 !! length (store c) = Some n)
    ∧ is_Some (tree_view c2)
    ∧ (∀ x, tree_view (with_store c2 (<[length (store c) := x]> (store c2)))
            = tree_view c2).
Proof.
  intros Hrun Hreg Hcl Hty.
  destruct (consistent_run es1 _ (consistent_new thr)) as (st & Hrun' & Hc).
  rewrite Hrun in Hrun'. injection Hrun' as <-.
  destruct (visit_link_orphan c link ty shown doc fx Hc Hreg Hcl Hty)
    as [Hnew Hun].
  pose proof (consistent_visit_link _ link Hc) as Hc1.
  destruct (consistent_run es2 _ Hc1) as ([c2 parent2] & Hrun2 & Hc2).
  destruct (unreferenced_run es2 _ _ _ _ Hc1 Hrun2 Hnew Hun)
    as (Hun2 & n & Hn & Hid & Hres & Hnty).
  simpl in Hun2, Hn.
  exists c2, parent2, n. split_and!; try done.
  - intros Hreach. by apply Hun2, reachable_referenced.
  - change (link_nodeid link) with (nodeid (new_DescribeNode link ty shown doc fx)).
    rewrite <- Hid.
    exact (unreferenced_not_found (c2, parent2) _ n Hc2 Hn Hun2).
  - intros report.
    destruct (update_from_report_total c2 parent2 report Hc2) as [c3 Hc3].
    exists c3. split; [done|].
    by rewrite (update_from_report_keeps _ _ _ _ Hc3 Hun2).
  - by apply (tree_view_total (c2, parent2)).
  - intros x. by apply tree_view_frame.
Qed.


(** ** Further properties of the collector *)

(** *** _classify_link *)

Lemma is_builtin_fixture_elem_of f :
  is_builtin_fixture f = true ↔ f ∈ BUILTIN_FIXTURES.
Proof.
  unfold is_builtin_fixture. rewrite existsb_exists. split.
  - intros (g & Hg%list_elem_of_In & ->%String.eqb_eq). done.
  - intros Hf. exists f. split; [by apply list_elem_of_In|].
    apply String.eqb_refl.
Qed.

(** X9. Which links are skipped and which type the others get: a link
    with [fspath] and [collect] is a DESCRIBE when it is a describe block, a
    FILE when it is none and has [path] and [reportinfo], and skipped
    otherwise; any other link is a TEST when it has a [function] and skipped
    when it has none. *)
Theorem classify_link_kind link :
  let shaped := has_fspath link && has_collect link in
  let kind := (λ r : NodeType * string * string * list string, r.1.1.1)
                <$> _classify_link link in
  (kind = Some DESCRIBE ↔ shaped = true ∧ _is_describe_block link = true)
  ∧ (kind = Some FILE
     ↔ shaped = true ∧ _is_describe_block link = false
       ∧ has_path link = true ∧ has_reportinfo link = true)
  ∧ (kind = Some TEST ↔ shaped = false ∧ is_Some (function link))
  ∧ (kind = None
     ↔ (shaped = true ∧ _is_describe_block link = false
        ∧ (has_path link = false ∨ has_reportinfo link = false))
       ∨ (shaped = false ∧ function link = None)).
Proof.
  intros shaped kind. subst shaped kind. unfold _classify_link.
  destruct (has_fspath link && has_collect link);
    [destruct (_is_describe_block link), (has_path link), (has_reportinfo link)
    |destruct (function link)];
    simpl;
    intuition (try discriminate; try congruence; eauto;
               try (exfalso; eapply is_Some_None; eassumption)).
Qed.


(** X17. A describe block is a DESCRIBE whatever [path] and [reportinfo]
    it has, named by the describe-name humanizer, without fixture names; its
    docstring is the one of [funcobj] when that is truthy, else the one of
    [obj] when that is truthy, else empty, and a missing docstring is
    empty. *)
Theorem classify_describe_block link :
  has_fspath link && has_collect link = true →
  _is_describe_block link = true →
  ∃ doc,
    _classify_link link
    = Some (DESCRIBE, Naming.humanize_describe_name (link_name link), doc, [])
    ∧ (∀ o, funcobj link = Some o → truthy o = true →
            doc = default "" (getdoc o))
    ∧ (funcobj link = None ∨ (∃ o', funcobj link = Some o' ∧ truthy o' = false) →
       (∀ o, obj link = Some o → truthy o = true → doc = default "" (getdoc o))
       ∧ (obj link = None ∨ (∃ o, obj link = Some o ∧ truthy o = false) →
          doc = ""))
    ∧ (_classify_link link ≠ None).
Proof.
  intros Hshape Hblock. unfold _classify_link. rewrite Hshape, Hblock.
  assert (∀ o, getdoc_or_empty o = default "" (getdoc o)) as Hdoc.
  { intros o. unfold getdoc_or_empty. by destruct (getdoc o) as [[|ch d]|]. }
  eexists. split; [done|]. unfold py_or. split_and!; [| |done].
  - intros o -> Ho. by rewrite Ho, Ho, Hdoc.
  - intros Hfunc.
    assert (match funcobj link with
            | Some o => if truthy o then funcobj link else obj link
            | None => obj link
            end = obj link) as ->.
    { destruct Hfunc as [-> | (o' & -> & ->)]; done. }
    split.
    + intros o -> Ho. by rewrite Ho, Hdoc.
    + intros [-> | (o & -> & ->)]; done.
Qed.

(** *** update_from_report *)

(** X11. A "setup" report that has not failed and is skipped, whose target
    is found and has a result: the outcome becomes [_map_outcome] of the
    report (XFAILED with the [wasxfail] marker), the duration the report's;
    the long description, the sections and the fixture names stay. *)
Theorem setup_skip_sets_outcome c report a n r :
  when report = "setup" → failed report = false → skipped report = true →
  tree_find_by_nodeid (store c) (tree c) (report_nodeid report) = Found a →
  store c !! a = Some n → result n = Some r →
  update_from_report c report
  = Some (with_store c
            (<[a := with_result n
                      {| outcome := _map_outcome report;
                         duration := report_duration report;
                         longrepr := longrepr r; sections := sections r;
                         fixture_names := fixture_names r |}]> (store c)))
  ∧ (has_wasxfail report = true → passed report = false →
     _map_outcome report = XFAILED)
  ∧ (has_wasxfail report = false → passed report = false →
     _map_outcome report = SKIPPED).
Proof.
  intros Hwhen Hfailed Hskipped Hfind Hn Hr. split_and!.
  - unfold update_from_report. rewrite Hwhen, Hfailed, Hskipped. simpl.
    by rewrite (on_result_hit _ _ _ _ _ _ Hfind Hn Hr).
  - unfold _map_outcome. by intros -> ->.
  - unfold _map_outcome. rewrite Hfailed, Hskipped. by intros -> ->.
Qed.

(** X12. Every other report is ignored whatever the collector holds: one
    whose phase is not "call", that has not failed in "setup" or
    "teardown", and is not a skipped "setup". *)
Theorem other_reports_are_ignored c report :
  when report ≠ "call" →
  failed report = false ∨ (when report ≠ "setup" ∧ when report ≠ "teardown") →
  skipped report = false ∨ when report ≠ "setup" →
  update_from_report c report = Some c.
Proof.
  intros Hcall Hfail Hskip. unfold update_from_report.
  apply String.eqb_neq in Hcall. rewrite Hcall.
  assert ((String.eqb (when report) "setup"
           || String.eqb (when report) "teardown") && failed report = false)
    as ->.
  { destruct Hfail as [-> | [Hs Ht]]; [apply andb_false_r|].
    apply String.eqb_neq in Hs, Ht. by rewrite Hs, Ht. }
  assert (String.eqb (when report) "setup" && skipped report = false) as ->.
  { destruct Hskip as [-> | Hs]; [apply andb_false_r|].
    apply String.eqb_neq in Hs. by rewrite Hs. }
  done.
Qed.

Lemma first_found_ext f g l :
  (∀ x, f x = g x) → first_found f l = first_found g l.
Proof.
  intros Hfg. induction l as [|x l IH]; simpl; [done|].
  rewrite Hfg. by destruct (g x).
Qed.

(** The search reads identifiers and children only. *)
Lemma find_by_nodeid_with_result σ a n r id depth b :
  σ !! a = Some n →
  find_by_nodeid depth (<[a := with_result n r]> σ) b id
  = find_by_nodeid depth σ b id.
Proof.
  intros Hn. pose proof (lookup_lt_Some _ _ _ Hn) as Hlt.
  revert b. induction depth as [|d IH]; intros b; [done|].
  cbn [find_by_nodeid]. destruct (decide (b = a)) as [->|Hne].
  - rewrite list_lookup_insert_eq, Hn by done. simpl.
    destruct (String.eqb (nodeid n) id); [done|]. by apply first_found_ext.
  - rewrite list_lookup_insert_ne by done.
    destruct (σ !! b) as [m|]; [|done].
    destruct (String.eqb (nodeid m) id); [done|]. by apply first_found_ext.
Qed.

Lemma tree_find_by_nodeid_with_result c a n r id :
  store c !! a = Some n →
  tree_find_by_nodeid (<[a := with_result n r]> (store c)) (tree c) id
  = tree_find_by_nodeid (store c) (tree c) id.
Proof.
  intros Hn. unfold tree_find_by_nodeid. rewrite length_insert.
  apply first_found_ext. intros root. by apply find_by_nodeid_with_result.
Qed.

(** What a report does depends on the collector only through [on_result],
    and the change it makes to a result is the same when made twice. *)
Lemma update_from_report_change report :
  (∀ c, update_from_report c report = Some c)
  ∨ ∃ change,
      (∀ r, change (change r) = change r)
      ∧ (∀ r, fixture_names (change r) = fixture_names r)
      ∧ ∀ c, update_from_report c report
             = on_result c (report_nodeid report) change.
Proof.
  unfold update_from_report.
  assert (∀ old, new_longrepr report (new_longrepr report old)
                 = new_longrepr report old) as Hlong.
  { intros old. unfold new_longrepr.
    destruct (longreprtext report) as [text|]; [|done].
    by destruct (nonempty text) eqn:E; rewrite ?E. }
  destruct (String.eqb (when report) "call").
  { right. eexists. split_and!; [| |done]; intros r; simpl; [|done].
    by rewrite Hlong. }
  destruct ((String.eqb (when report) "setup"
             || String.eqb (when report) "teardown") && failed report).
  { right. eexists. split_and!; [| |done]; intros r; simpl; [|done].
    by rewrite Hlong. }
  destruct (String.eqb (when report) "setup" && skipped report).
  { right. eexists. split_and!; [| |done]; intros r; simpl; done. }
  by left.
Qed.

Lemma on_result_twice c id change c1 :
  (∀ r, change (change r) = change r) →
  on_result c id change = Some c1 → on_result c1 id change = Some c1.
Proof.
  intros Hchange. unfold on_result at 1.
  destruct (tree_find_by_nodeid (store c) (tree c) id) as [a| |] eqn:Hf;
    [| |done].
  - destruct (store c !! a) as [n|] eqn:Hn; [|done].
    destruct (result n) as [r|] eqn:Hr.
    + intros [= <-]. unfold on_result. simpl.
      rewrite (tree_find_by_nodeid_with_result _ _ _ _ _ Hn), Hf.
      rewrite list_lookup_insert_eq by (by eapply lookup_lt_Some). simpl.
      rewrite list_insert_insert_eq, Hchange. done.
    + intros [= <-]. unfold on_result. by rewrite Hf, Hn, Hr.
  - intros [= <-]. unfold on_result. by rewrite Hf.
Qed.

(** X13. Taking the same report a second time changes nothing more: the
    collector after the second time is the collector after the first. *)
Theorem update_from_report_twice c report c1 :
  update_from_report c report = Some c1 →
  update_from_report c1 report = Some c1.
Proof.
  destruct (update_from_report_change report)
    as [Hsame | (change & Hchange & _ & Hup)].
  - rewrite !Hsame. by intros [= <-].
  - rewrite !Hup. by apply on_result_twice.
Qed.

Lemma update_from_report_structure c report c' :
  update_from_report c report = Some c' →
  tree c' = tree c ∧ _nodes c' = _nodes c
  ∧ length (store c') = length (store c)
  ∧ (∀ a n, store c !! a = Some n →
       ∃ n', store c' !! a = Some n'
             ∧ name n' = name n ∧ display_name n' = display_name n
             ∧ node_type n' = node_type n ∧ nodeid n' = nodeid n
             ∧ docstring n' = docstring n ∧ children n' = children n
             ∧ fixture_names <$> result n' = fixture_names <$> result n)
  ∧ (∃ a0, ∀ a, a ≠ a0 → store c' !! a = store c !! a).
Proof.
  destruct (update_from_report_change report)
    as [Hsame | (change & _ & Hfx & Hup)].
  { rewrite Hsame. intros [= <-]. split_and!; try done.
    - intros a n Hn. exists n. by split_and!.
    - by exists 0. }
  rewrite Hup.
  intros [-> | (a0 & n0 & r & _ & Hn0 & _ & Hr & ->)]%on_result_Some.
  { split_and!; try done.
    - intros a n Hn. exists n. by split_and!.
    - by exists 0. }
  simpl. split_and!; try done.
  - apply length_insert.
  - intros a n Hn. destruct (decide (a = a0)) as [->|Hne].
    + exists (with_result n0 (change r)).
      rewrite list_lookup_insert_eq by (by eapply lookup_lt_Some).
      assert (n = n0) as -> by congruence. simpl. rewrite Hr. simpl.
      by rewrite Hfx.
    + exists n. rewrite list_lookup_insert_ne by done. by split_and!.
  - exists a0. intros a Hne. by apply list_lookup_insert_ne.
Qed.

(** X14. A report changes at most the result of one node: the roots, the
    registry and the number of objects stay, every object keeps its names,
    type, identifier, docstring, children and fixture names, and all objects
    but one are the same. *)
Theorem update_from_report_keeps_structure c report c' :
  update_from_report c report = Some c' →
  tree c' = tree c ∧ _nodes c' = _nodes c
  ∧ length (store c') = length (store c)
  ∧ (∀ a n, store c !! a = Some n →
       ∃ n', store c' !! a = Some n'
             ∧ name n' = name n ∧ display_name n' = display_name n
             ∧ node_type n' = node_type n ∧ nodeid n' = nodeid n
             ∧ docstring n' = docstring n ∧ children n' = children n
             ∧ fixture_names <$> result n' = fixture_names <$> result n)
  ∧ (∃ a0, ∀ a, a ≠ a0 → store c' !! a = store c !! a).
Proof.
  intros Hup.
  destruct (update_from_report_structure c report c' Hup)
    as (Htree & Hreg & Hlen & Hkeep & Hone).
  split_and!; [exact Htree | exact Hreg | exact Hlen | exact Hkeep | exact Hone].
Qed.

(** *** build_from_items only adds *)

Lemma grown_refl n : grown n n.
Proof. by unfold grown. Qed.

Lemma grown_trans n1 n2 n3 : grown n1 n2 → grown n2 n3 → grown n1 n3.
Proof.
  unfold grown. intros (?&?&?&?&?&?&?) (?&?&?&?&?&?&?).
  split_and!; try congruence. by etrans.
Qed.

Lemma extends_refl c : extends c c.
Proof.
  split_and!; try done. intros a n Hn. exists n. split; [done|apply grown_refl].
Qed.

Lemma extends_trans c1 c2 c3 : extends c1 c2 → extends c2 c3 → extends c1 c3.
Proof.
  intros (Hs1 & Hr1 & Ht1 & Hm1) (Hs2 & Hr2 & Ht2 & Hm2). split_and!.
  - intros a n Hn. destruct (Hs1 _ _ Hn) as (n2 & Hn2 & Hg2).
    destruct (Hs2 _ _ Hn2) as (n3 & Hn3 & Hg3).
    exists n3. split; [done|]. by eapply grown_trans.
  - by etrans.
  - congruence.
  - by etrans.
Qed.

Lemma visit_link_extends st link : extends st.1 (visit_link st link).1.
Proof.
  destruct st as [c parent].
  destruct (_nodes c !! link_nodeid link) as [a0|] eqn:Hreg.
  { rewrite (visit_link_seen _ _ _ _ Hreg). apply extends_refl. }
  destruct (_classify_link link) as [[[[ty shown] doc] fx]|] eqn:Hcl;
    [|rewrite visit_link_skip by done; apply extends_refl].
  rewrite (visit_link_new _ _ _ _ _ _ _ Hreg Hcl). split_and!; simpl.
  - intros a n Hn. pose proof (lookup_lt_Some _ _ _ Hn) as Hlt.
    destruct parent as [p|]; simpl.
    + destruct (decide (p = a)) as [->|Hpa].
      * exists (with_child (length (store c)) n).
        rewrite list_lookup_alter_eq, lookup_app_l, Hn by done.
        split; [done|]. unfold grown. simpl. split_and!; try done.
        by apply prefix_app_r.
      * exists n. rewrite list_lookup_alter_ne, lookup_app_l by done.
        split; [done | apply grown_refl].
    + exists n. rewrite lookup_app_l by done. split; [done | apply grown_refl].
  - by apply prefix_app_r.
  - done.
  - by apply insert_subseteq.
Qed.

Lemma chain_extends links st : extends st.1 (fold_left visit_link links st).1.
Proof.
  revert st. induction links as [|link links IH]; intros st; simpl.
  - apply extends_refl.
  - eapply extends_trans; [apply visit_link_extends | apply IH].
Qed.

(** X15. Building never takes anything back: every object that exists
    keeps its names, type, identifier, docstring and result and gets new
    children only at the end of its list; roots are added only at the end;
    registered identifiers stay registered to the same object. *)
Theorem build_from_items_only_adds c items :
  (∀ a n, store c !! a = Some n →
     ∃ n', store (build_from_items c items) !! a = Some n'
           ∧ name n' = name n ∧ display_name n' = display_name n
           ∧ node_type n' = node_type n ∧ nodeid n' = nodeid n
           ∧ docstring n' = docstring n ∧ result n' = result n
           ∧ children n `prefix_of` children n')
  ∧ roots (tree c) `prefix_of` roots (tree (build_from_items c items))
  ∧ slow_threshold (tree (build_from_items c items)) = slow_threshold (tree c)
  ∧ (∀ id a, _nodes c !! id = Some a →
       _nodes (build_from_items c items) !! id = Some a).
Proof.
  assert (extends c (build_from_items c items)) as (Hs & Hr & Ht & Hm).
  { revert c. induction items as [|item items IH]; intros c; simpl.
    - apply extends_refl.
    - eapply extends_trans; [|apply IH].
      apply (chain_extends _ (c, None)). }
  split_and!; try done.
  intros id a Hid. by eapply lookup_weaken.
Qed.

(** *** What holds of every collector of a session *)

(** A property of the first collector that every event keeps holds after
    the session. *)
Lemma run_invariant (P : TreeCollector * option addr → Prop) thr :
  P (new_TreeCollector thr, None) →
  (∀ st e st', consistent st → P st → step st e = Some st' → P st') →
  ∀ es st', run es (new_TreeCollector thr, None) = Some st' →
            consistent st' ∧ P st'.
Proof.
  intros Hnew Hstep es.
  pose proof (consistent_new thr) as Hc. revert Hc Hnew.
  generalize (new_TreeCollector thr, @None addr).
  induction es as [|e es IH]; intros st Hc HP st' Hrun; simpl in Hrun.
  { by injection Hrun as <-. }
  destruct (consistent_step st e Hc) as (st1 & Hst1 & Hc1).
  rewrite Hst1 in Hrun. simpl in Hrun. eapply IH; [exact Hc1| |exact Hrun].
  exact (Hstep _ _ _ Hc HP Hst1).
Qed.

Lemma run_consistent thr es st :
  run es (new_TreeCollector thr, None) = Some st → consistent st.
Proof.
  intros Hrun.
  by destruct (run_invariant (λ _, True) thr I (λ _ _ _ _ _ _, I) es st Hrun).
Qed.

Lemma classify_link_fixtures link ty shown doc fx :
  _classify_link link = Some (ty, shown, doc, fx) →
  Forall (λ f, f ∉ BUILTIN_FIXTURES) fx.
Proof.
  unfold _classify_link.
  destruct (has_fspath link && has_collect link).
  - destruct (_is_describe_block link); [intros [= <- <- <- <-]; constructor|].
    destruct (has_path link && negb (has_reportinfo link)); [done|].
    destruct (has_path link); [intros [= <- <- <- <-]; constructor | done].
  - destruct (function link) as [fn|]; [|done]. intros [= <- <- <- <-].
    apply Forall_forall. intros f [Hf _]%list_elem_of_filter.
    rewrite <- is_builtin_fixture_elem_of. by destruct (is_builtin_fixture f).
Qed.

Lemma well_typed_visit_link st link :
  consistent st → well_typed st.1 → well_typed (visit_link st link).1.
Proof.
  destruct st as [c parent]. intros Hc [Hroots Hobjs]. simpl in Hroots, Hobjs.
  destruct (_nodes c !! link_nodeid link) as [a0|] eqn:Hreg.
  { by rewrite (visit_link_seen _ _ _ _ Hreg). }
  destruct (_classify_link link) as [[[[ty shown] doc] fx]|] eqn:Hcl;
    [|by rewrite visit_link_skip].
  rewrite (visit_link_new _ _ _ _ _ _ _ Hreg Hcl).
  pose proof (parent_allocated _ Hc) as Hp. simpl in Hp.
  pose proof (classify_link_fixtures _ _ _ _ _ Hcl) as Hfx.
  split; simpl.
  - intros r [Hr | Hr]%elem_of_app.
    + specialize (Hroots r Hr).
      destruct (store c !! r) as [n|] eqn:Hn; [|done].
      destruct (attached_old (store c) parent
                  (new_DescribeNode link ty shown doc fx) _ _ Hn)
        as (n' & -> & _ & _ & Hty).
      simpl in *. congruence.
    + destruct parent; [by apply elem_of_nil in Hr|].
      case_bool_decide as Hfile; [|by apply elem_of_nil in Hr].
      apply list_elem_of_singleton in Hr as ->.
      cbn. rewrite list_lookup_middle by done. simpl. congruence.
  - intros a n' Hn'.
    apply (attached_lookup _ _ _ _ _ Hp) in Hn' as [[-> ->] | (n & Hn & Hcase)].
    + simpl. case_bool_decide as Hty; split.
      * split; [done | eauto].
      * intros r [= <-]. exact Hfx.
      * split; [by intros [? ?] | done].
      * done.
    + destruct (Hobjs _ _ Hn) as [Hres Hnames].
      by destruct Hcase as [[_ ->] | [_ ->]].
Qed.

Lemma well_typed_update_from_report c report c' :
  update_from_report c report = Some c' → well_typed c → well_typed c'.
Proof.
  intros (Htree & _ & Hlen & Hkeep & _)%update_from_report_structure
    [Hroots Hobjs].
  assert (∀ a n', store c' !! a = Some n' →
            ∃ n, store c !! a = Some n ∧ node_type n' = node_type n
                 ∧ fixture_names <$> result n' = fixture_names <$> result n)
    as Hback.
  { intros a n' Hn'. pose proof (lookup_lt_Some _ _ _ Hn') as Hlt.
    rewrite Hlen in Hlt. destruct (lookup_lt_is_Some_2 _ _ Hlt) as [n Hn].
    destruct (Hkeep _ _ Hn) as (n2 & Hn2 & _ & _ & Hty & _ & _ & _ & Hfx).
    exists n. split; [done|]. assert (n2 = n') as -> by congruence. done. }
  split.
  - rewrite Htree. intros r Hr. specialize (Hroots r Hr).
    destruct (store c !! r) as [n|] eqn:Hn; [|done].
    destruct (Hkeep _ _ Hn) as (n' & -> & _ & _ & Hty & _). simpl in *.
    congruence.
  - intros a n' Hn'. destruct (Hback _ _ Hn') as (n & Hn & Hty & Hfx).
    destruct (Hobjs _ _ Hn) as [Hres Hnames]. rewrite Hty. split.
    + rewrite <- Hres.
      destruct (result n'), (result n); simpl in Hfx; try done.
      all: split; intros [? ?]; done.
    + intros r' Hr'. rewrite Hr' in Hfx.
      destruct (result n) as [r|]; [|done]. simpl in Hfx.
      injection Hfx as ->. by apply Hnames.
Qed.

(** X16. In every collector of a session the roots are FILE nodes, a node
    has a result exactly when it is a TEST, and no result lists a builtin
    fixture. *)
Theorem session_nodes_are_typed thr es c parent :
  run es (new_TreeCollector thr, None) = Some (c, parent) →
  (∀ r, r ∈ roots (tree c) → node_type <$> store c !! r = Some FILE)
  ∧ (∀ a n, store c !! a = Some n →
       (is_Some (result n) ↔ node_type n = TEST)
       ∧ ∀ r, result n = Some r →
              Forall (λ f, f ∉ BUILTIN_FIXTURES) (fixture_names r)).
Proof.
  intros Hrun.
  apply (run_invariant (λ st, well_typed st.1) thr) in Hrun as [_ Hwt];
    [exact Hwt| |].
  - split; [by intros r ?%elem_of_nil | done].
  - intros st e st' Hc Hwt Hstep. destruct e as [|link|report]; simpl in Hstep.
    + by injection Hstep as <-.
    + injection Hstep as <-. by apply well_typed_visit_link.
    + destruct (update_from_report st.1 report) as [c1|] eqn:Hup; [|done].
      injection Hstep as <-. by eapply well_typed_update_from_report.
Qed.


(** *** Attached nodes are found *)

Lemma first_found_NotFound f l :
  first_found f l = NotFound → Forall (λ x, f x = NotFound) l.
Proof.
  induction l as [|x l IH]; simpl; [constructor|].
  destruct (f x) eqn:Hx; [done| |done]. intros H. constructor; auto.
Qed.

Lemma find_by_nodeid_NotFound σ id depth self a m :
  find_by_nodeid depth σ self id = NotFound →
  below σ self a → σ !! a = Some m → nodeid m ≠ id.
Proof.
  revert self. induction depth as [|d IH]; intros self; [done|].
  cbn [find_by_nodeid].
  destruct (σ !! self) as [n|] eqn:Hn; [|done].
  destruct (String.eqb (nodeid n) id) eqn:Hid; [done|].
  intros Hkids%first_found_NotFound Hbelow Hm.
  inversion Hbelow as [|? n' ch ? Hn' Hch Hrest]; subst.
  - apply String.eqb_neq in Hid. congruence.
  - assert (n' = n) as -> by congruence.
    rewrite Forall_forall in Hkids. by apply (IH ch (Hkids ch Hch)).
Qed.

Lemma below_snoc σ self b n ch :
  below σ self b → σ !! b = Some n → ch ∈ children n → below σ self ch.
Proof.
  induction 1 as [self | self n0 ch0 b Hn0 Hch0 _ IH]; intros Hn Hch.
  - eapply below_child; [done..|]. constructor.
  - eapply below_child; [done..|]. by apply IH.
Qed.

Lemma reachable_below c a :
  reachable c a → ∃ r, r ∈ roots (tree c) ∧ below (store c) r a.
Proof.
  induction 1 as [r Hr | b n ch _ (r & Hr & Hb) Hn Hch].
  - exists r. split; [done | constructor].
  - exists r. split; [done|]. by eapply below_snoc.
Qed.

Lemma reachable_found st a n :
  consistent st → reachable st.1 a → store st.1 !! a = Some n →
  tree_find_by_nodeid (store st.1) (tree st.1) (nodeid n) = Found a.
Proof.
  intros Hc Hreach Hn.
  pose proof (tree_find_by_nodeid_no_Fault st (nodeid n) Hc) as Hnf.
  destruct (tree_find_by_nodeid _ _ _) as [b| |] eqn:Hf; [| |done].
  - apply tree_find_by_nodeid_Found in Hf as [(m & Hm & Hid) _].
    f_equal. symmetry. by apply (node_per_identifier st a b n m).
  - apply reachable_below in Hreach as (r & Hr & Hbelow).
    unfold tree_find_by_nodeid in Hf. apply first_found_NotFound in Hf.
    rewrite Forall_forall in Hf.
    by destruct (find_by_nodeid_NotFound _ _ _ _ _ _ (Hf r Hr) Hbelow Hn).
Qed.

(** X18. In every collector of a session, a node that a walk from the
    roots gets to is found by its identifier, and the search returns that
    very node. *)
Theorem attached_nodes_are_found thr es c parent a n :
  run es (new_TreeCollector thr, None) = Some (c, parent) →
  reachable c a → store c !! a = Some n →
  tree_find_by_nodeid (store c) (tree c) (nodeid n) = Found a.
Proof.
  intros Hrun. apply (reachable_found (c, parent)).
  by eapply run_consistent.
Qed.

(** X19. In every collector of a session every report is taken: the
    objects form no cycle, so the search always answers. *)
Theorem session_reports_are_taken thr es c parent report :
  run es (new_TreeCollector thr, None) = Some (c, parent) →
  ∃ c', update_from_report c report = Some c'.
Proof.
  intros Hrun. apply (update_from_report_total c parent).
  by eapply run_consistent.
Qed.

(** X20. A "call" report for a test that a walk from the roots gets to
    sets the outcome and the duration of that test. *)
Theorem attached_test_takes_call_report thr es c parent a n r report :
  run es (new_TreeCollector thr, None) = Some (c, parent) →
  reachable c a → store c !! a = Some n → result n = Some r →
  when report = "call" → report_nodeid report = nodeid n →
  ∃ c' n' r',
    update_from_report c report = Some c'
    ∧ store c' !! a = Some n' ∧ result n' = Some r'
    ∧ outcome r' = _map_outcome report
    ∧ duration r' = report_duration report.
Proof.
  intros Hrun Hreach Hn Hr Hwhen Hid.
  pose proof (reachable_found (c, parent) a n (run_consistent _ _ _ Hrun)
                Hreach Hn) as Hfind.
  simpl in Hfind. rewrite <- Hid in Hfind.
  unfold update_from_report. rewrite Hwhen. simpl.
  rewrite (on_result_hit _ _ _ _ _ _ Hfind Hn Hr).
  eexists _, _, _. split; [done|]. simpl.
  rewrite list_lookup_insert_eq by (by eapply lookup_lt_Some). done.
Qed.

(** *** Which new nodes are attached *)

Lemma visit_link_reachable st link b :
  reachable st.1 b → reachable (visit_link st link).1 b.
Proof.
  destruct (visit_link_extends st link) as (Hs & Hr & _ & _).
  induction 1 as [r Hr0 | b0 n ch _ IH Hn Hch].
  - apply reachable_root. by eapply elem_of_prefix.
  - destruct (Hs _ _ Hn) as (n' & Hn' & Hg).
    eapply reachable_child; [exact IH | exact Hn'|].
    destruct Hg as (_ & _ & _ & _ & _ & _ & Hpre).
    by eapply elem_of_prefix.
Qed.

Lemma visit_link_new_reachable c parent link ty shown doc fx :
  consistent (c, parent) →
  _nodes c !! link_nodeid link = None →
  _classify_link link = Some (ty, shown, doc, fx) →
  (∀ b, b < length (store c) →
        reachable (visit_link (c, parent) link).1 b → reachable c b)
  ∧ (reachable (visit_link (c, parent) link).1 (length (store c))
     ↔ (parent = None ∧ ty = FILE) ∨ (∃ p, parent = Some p ∧ reachable c p)).
Proof.
  intros Hc Hreg Hcl.
  pose proof (parent_allocated _ Hc) as Hp. simpl in Hp.
  pose proof (visit_link_reachable (c, parent) link) as Hmono.
  rewrite (visit_link_new _ _ _ _ _ _ _ Hreg Hcl) in *.
  set (node := new_DescribeNode link ty shown doc fx) in *.
  set (c' := mkTreeCollector _ _ _) in *.
  assert (∀ b, reachable c' b → b < length (store c) → reachable c b) as Hold.
  { induction 1 as [r Hr | b0 n' ch Hb0 IH Hn' Hch]; intros Hlt.
    - apply reachable_root. simpl in Hr.
      apply elem_of_app in Hr as [Hr | Hr]; [done|].
      destruct parent; [by apply elem_of_nil in Hr|].
      case_bool_decide; [|by apply elem_of_nil in Hr].
      apply list_elem_of_singleton in Hr. lia.
    - simpl in Hn'.
      apply (attached_lookup _ _ _ _ _ Hp) in Hn' as [[-> ->] | (n & Hn & Hcase)].
      { by apply elem_of_nil in Hch. }
      pose proof (lookup_lt_Some _ _ _ Hn) as Hb0lt.
      eapply reachable_child; [by apply IH | exact Hn |].
      destruct Hcase as [[_ ->] | [_ ->]]; [|done]. simpl in Hch.
      apply elem_of_app in Hch as [Hch | Hch]; [done|].
      apply list_elem_of_singleton in Hch. lia. }
  split; [by intros b Hlt Hb; apply Hold|]. split.
  - intros Hreach. inversion Hreach as [r Hr | b0 n' ch Hb0 Hn' Hch]; subst.
    + simpl in Hr. apply elem_of_app in Hr as [Hr | Hr].
      { pose proof (roots_allocated _ Hc) as Hroots.
        rewrite Forall_forall in Hroots. apply Hroots in Hr. simpl in Hr. lia. }
      destruct parent; [by apply elem_of_nil in Hr|].
      case_bool_decide; [by left | by apply elem_of_nil in Hr].
    + simpl in Hn'.
      apply (attached_lookup _ _ _ _ _ Hp) in Hn' as [[-> ->] | (n & Hn & Hcase)].
      { by apply elem_of_nil in Hch. }
      pose proof (lookup_lt_Some _ _ _ Hn) as Hb0lt.
      destruct Hcase as [[-> ->] | [_ ->]].
      * right. exists b0. split; [done|]. by apply Hold.
      * pose proof (children_later _ Hc _ _ Hn) as Hlater.
        rewrite Forall_forall in Hlater. apply Hlater in Hch. simpl in Hch. lia.
  - intros [[-> ->] | (p & -> & Hreach)].
    + apply reachable_root. simpl. try rewrite bool_decide_eq_true_2 by done.
      apply elem_of_app. right. by apply list_elem_of_singleton.
    + destruct (lookup_lt_is_Some_2 _ _ (Hp p eq_refl)) as [n Hn].
      eapply (reachable_child c' p (with_child (length (store c)) n)).
      * by apply Hmono.
      * simpl. by rewrite list_lookup_alter_eq, lookup_app_l, Hn by eauto.
      * simpl. apply elem_of_app. right. by apply list_elem_of_singleton.
Qed.

(** X21. A new node is attached to the tree exactly when it is a FILE with
    no parent resolved or its parent is attached; the nodes that existed are
    attached afterwards exactly when they were before. *)
Theorem new_node_attached_iff thr es c parent link ty shown doc fx :
  run es (new_TreeCollector thr, None) = Some (c, parent) →
  _nodes c !! link_nodeid link = None →
  _classify_link link = Some (ty, shown, doc, fx) →
  (reachable (visit_link (c, parent) link).1 (length (store c))
   ↔ (parent = None ∧ ty = FILE) ∨ (∃ p, parent = Some p ∧ reachable c p))
  ∧ (∀ b, b < length (store c) →
          (reachable (visit_link (c, parent) link).1 b ↔ reachable c b)).
Proof.
  intros Hrun Hreg Hcl.
  destruct (visit_link_new_reachable c parent link ty shown doc fx
              (run_consistent _ _ _ Hrun) Hreg Hcl) as [Hold Hnew].
  split; [exact Hnew|]. intros b Hlt. split; [by apply Hold|].
  apply (visit_link_reachable (c, parent)).
Qed.
End Collector.

(** ** The claims about [model.py] *)

Lemma sum_sum_list l : sum l = sum_list l.
Proof.
  unfold sum. rewrite <- (Nat.add_0_l (sum_list l)). generalize 0.
  induction l as [|x l IH]; intros acc; simpl; [lia|]. rewrite IH. lia.
Qed.

Lemma has_outcome_decide (n : Model.DescribeNode) o :
  Model.has_outcome n o = bool_decide (outcome <$> Model.result n = Some o).
Proof.
  unfold Model.has_outcome. destruct (Model.result n) as [r|]; simpl.
  - apply bool_decide_ext. split; congruence.
  - done.
Qed.

(** C8. A TEST node counts 1 test; it counts 1 passed, failed or skipped test
    when its result's outcome is PASSED, FAILED or ERROR, SKIPPED, and 0
    otherwise; its aggregate duration is its result's duration, or 0 without
    a result. Every other node has the sum of its children's values. *)
Theorem aggregation_laws fsum (n : Model.DescribeNode) :
  (Model.node_type n = TEST →
   Model.test_count n = 1
   ∧ Model.passed_count n
     = (if decide (outcome <$> Model.result n = Some PASSED) then 1 else 0)
   ∧ Model.failed_count n
     = (if decide (outcome <$> Model.result n = Some FAILED
                   ∨ outcome <$> Model.result n = Some ERROR) then 1 else 0)
   ∧ Model.skipped_count n
     = (if decide (outcome <$> Model.result n = Some SKIPPED) then 1 else 0)
   ∧ Model.aggregate_duration fsum n
     = default 0%float (duration <$> Model.result n))
  ∧ (Model.node_type n ≠ TEST →
     Model.test_count n = sum_list (Model.test_count <$> Model.children n)
     ∧ Model.passed_count n = sum_list (Model.passed_count <$> Model.children n)
     ∧ Model.failed_count n = sum_list (Model.failed_count <$> Model.children n)
     ∧ Model.skipped_count n
       = sum_list (Model.skipped_count <$> Model.children n)
     ∧ Model.aggregate_duration fsum n
       = fsum (Model.aggregate_duration fsum <$> Model.children n)).
Proof.
  split; intros Hty.
  - assert (Model.is_test n = true) as Htest by (by apply bool_decide_eq_true_2).
    destruct n as [nm shown ty id doc kids res]; simpl in *.
    rewrite Htest, !has_outcome_decide. simpl. split_and!.
    + done.
    + by rewrite (decide_bool_decide (_ = _)).
    + rewrite <- bool_decide_or. by rewrite (decide_bool_decide (_ ∨ _)).
    + by rewrite (decide_bool_decide (_ = _)).
    + by destruct res.
  - assert (Model.is_test n = false) as Htest by (by apply bool_decide_eq_false_2).
    destruct n as [nm shown ty id doc kids res]; simpl in *.
    rewrite Htest, !sum_sum_list. done.
Qed.

Lemma existsb_elem_of (P : TestOutcome → bool) l :
  existsb P l = true ↔ ∃ o, o ∈ l ∧ P o = true.
Proof.
  rewrite existsb_exists. by setoid_rewrite list_elem_of_In.
Qed.

Lemma forallb_Forall_eq (o : TestOutcome) l :
  forallb (λ x, bool_decide (x = o)) l = true ↔ Forall (.= o) l.
Proof.
  rewrite forallb_forall, Forall_forall.
  setoid_rewrite list_elem_of_In. by setoid_rewrite bool_decide_eq_true.
Qed.

(** Decides a goal about the members of [os] once [Hos] tells which they
    are. *)
Ltac among Hos :=
  rewrite Hos; apply (bool_decide_unpack _); vm_compute; exact I.

(** C2. A node that is not a TEST takes its outcome from its children's
    outcomes in this order: none gives PENDING; a FAILED or ERROR one gives
    FAILED; else an XPASSED one gives XPASSED; else all SKIPPED gives SKIPPED;
    else all PENDING gives PENDING; else PASSED. So FAILED with XPASSED gives
    FAILED, XPASSED with PASSED gives XPASSED, PASSED with SKIPPED gives
    PASSED and XFAILED alone gives PASSED. *)
Theorem overall_outcome_precedence (n : Model.DescribeNode) :
  Model.node_type n ≠ TEST →
  let os := Model.overall_outcome <$> Model.children n in
  let failing := FAILED ∈ os ∨ ERROR ∈ os in
  (os = [] → Model.overall_outcome n = PENDING)
  ∧ (failing → Model.overall_outcome n = FAILED)
  ∧ (¬ failing → XPASSED ∈ os → Model.overall_outcome n = XPASSED)
  ∧ (os ≠ [] → ¬ failing → XPASSED ∉ os → Forall (.= SKIPPED) os →
     Model.overall_outcome n = SKIPPED)
  ∧ (os ≠ [] → ¬ failing → XPASSED ∉ os → Forall (.= PENDING) os →
     Model.overall_outcome n = PENDING)
  ∧ (¬ failing → XPASSED ∉ os → ¬ Forall (.= SKIPPED) os →
     ¬ Forall (.= PENDING) os → Model.overall_outcome n = PASSED)
  ∧ (os ≡ₚ [FAILED; XPASSED] → Model.overall_outcome n = FAILED)
  ∧ (os ≡ₚ [XPASSED; PASSED] → Model.overall_outcome n = XPASSED)
  ∧ (os ≡ₚ [PASSED; SKIPPED] → Model.overall_outcome n = PASSED)
  ∧ (os = [XFAILED] → Model.overall_outcome n = PASSED).
Proof.
  intros Hty os failing.
  assert (Model.is_test n = false) as Htest by (by apply bool_decide_eq_false_2).
  assert (Model.overall_outcome n =
    match os with
    | [] => PENDING
    | _ =>
        if existsb (λ o, bool_decide (o = FAILED) || bool_decide (o = ERROR)) os
        then FAILED
        else if existsb (λ o, bool_decide (o = XPASSED)) os then XPASSED
        else if forallb (λ o, bool_decide (o = SKIPPED)) os then SKIPPED
        else if forallb (λ o, bool_decide (o = PENDING)) os then PENDING
        else PASSED
    end) as Heq.
  { subst os. destruct n as [nm shown ty id doc kids res]; simpl in *.
    by rewrite Htest. }
  assert (existsb (λ o, bool_decide (o = FAILED) || bool_decide (o = ERROR)) os
          = true ↔ failing) as Hfail.
  { rewrite existsb_elem_of. unfold failing. split.
    - intros (o & Ho & [->%bool_decide_eq_true | ->%bool_decide_eq_true]%orb_true_iff);
        auto.
    - intros [H | H]; eexists; (split; [exact H | done]). }
  assert (existsb (λ o, bool_decide (o = XPASSED)) os = true ↔ XPASSED ∈ os)
    as Hxp.
  { rewrite existsb_elem_of. split.
    - by intros (o & Ho & ->%bool_decide_eq_true).
    - intros H. eexists. split; [exact H | done]. }
  pose proof (forallb_Forall_eq SKIPPED os) as Hsk.
  pose proof (forallb_Forall_eq PENDING os) as Hpe.
  assert (∀ b : bool, ∀ P : Prop, (b = true ↔ P) → ¬ P → b = false) as Hno.
  { intros [] P HP HnP; [|done]. destruct HnP. by apply HP. }
  assert (failing → Model.overall_outcome n = FAILED) as Hfailed.
  { intros Hf. rewrite Heq. apply Hfail in Hf. rewrite Hf.
    destruct os; [discriminate Hf | done]. }
  assert (¬ failing → XPASSED ∈ os → Model.overall_outcome n = XPASSED)
    as Hxpassed.
  { intros Hnf Hx. rewrite Heq, (Hno _ _ Hfail Hnf).
    apply Hxp in Hx. rewrite Hx. destruct os; [discriminate Hx | done]. }
  assert (¬ failing → XPASSED ∉ os → ¬ Forall (.= SKIPPED) os →
          ¬ Forall (.= PENDING) os → Model.overall_outcome n = PASSED)
    as Hpassed.
  { intros Hnf Hnx Hns Hnp.
    rewrite Heq, (Hno _ _ Hfail Hnf), (Hno _ _ Hxp Hnx), (Hno _ _ Hsk Hns),
      (Hno _ _ Hpe Hnp).
    destruct os; [|done]. destruct Hns. constructor. }
  split_and!; try done.
  - intros Hnil. by rewrite Heq, Hnil.
  - intros Hne Hnf Hnx Hall. apply Hsk in Hall.
    rewrite Heq, (Hno _ _ Hfail Hnf), (Hno _ _ Hxp Hnx), Hall. by destruct os.
  - intros Hne Hnf Hnx Hall. apply Hpe in Hall as Hall'.
    rewrite Heq, (Hno _ _ Hfail Hnf), (Hno _ _ Hxp Hnx), Hall'.
    destruct (forallb (λ o, bool_decide (o = SKIPPED)) os) eqn:E;
      [|by destruct os].
    apply (forallb_Forall_eq SKIPPED) in E. destruct os as [|o os']; [done|].
    apply Forall_cons in E as [-> _]. by apply Forall_cons in Hall as [? _].
  - intros Hos. apply Hfailed. unfold failing. among Hos.
  - intros Hos. apply Hxpassed; unfold failing; among Hos.
  - intros Hos. apply Hpassed; unfold failing; among Hos.
  - intros Hos. apply Hpassed; unfold failing; among Hos.
Qed.

(** ** The claims about [_map_outcome] and [naming.py] *)

(** C4. With the [wasxfail] marker the outcome is XPASSED when [passed] is
    set and XFAILED otherwise, whatever [failed] and [skipped] say; without
    the marker it is PASSED, else FAILED, else SKIPPED by the first flag that
    is set, and PENDING when none is. *)
Theorem map_outcome_table report :
  (has_wasxfail report = true → passed report = true →
   _map_outcome report = XPASSED)
  ∧ (has_wasxfail report = true → passed report = false →
     _map_outcome report = XFAILED)
  ∧ (has_wasxfail report = false → passed report = true →
     _map_outcome report = PASSED)
  ∧ (has_wasxfail report = false → passed report = false →
     failed report = true → _map_outcome report = FAILED)
  ∧ (has_wasxfail report = false → passed report = false →
     failed report = false → skipped report = true →
     _map_outcome report = SKIPPED)
  ∧ (has_wasxfail report = false → passed report = false →
     failed report = false → skipped report = false →
     _map_outcome report = PENDING).
Proof.
  unfold _map_outcome.
  split_and!; intros Hx Hp; rewrite Hx, Hp; try done.
  - by intros ->.
  - by intros -> ->.
  - by intros -> ->.
Qed.

Lemma startswith_append p rest : Naming.startswith (p +:+ rest) p = true.
Proof.
  unfold Naming.startswith. induction p as [|c p IH]; simpl.
  - by destruct rest.
  - by destruct (ascii_dec c c).
Qed.

Lemma startswith_slice s p :
  Naming.startswith s p = true →
  s = p +:+ Naming.slice_from (String.length p) s.
Proof.
  unfold Naming.startswith. revert s.
  induction p as [|c p IH]; intros s; [done|].
  destruct s as [|d s]; simpl; [done|].
  destruct (ascii_dec c d) as [->|]; [|done].
  intros Hp.
  change (String d s
          = String d (p +:+ Naming.slice_from (String.length p) s)).
  f_equal. by apply IH.
Qed.

Lemma not_startswith s p rest :
  Naming.startswith s p = false → s ≠ p +:+ rest.
Proof. intros Hs ->. by rewrite startswith_append in Hs. Qed.

Lemma contains_elem_of c s :
  Naming.contains c s = true ↔ c ∈ list_ascii_of_string s.
Proof.
  induction s as [|d s IH]; simpl.
  - split; [done | by intros ?%elem_of_nil].
  - rewrite elem_of_cons. destruct (Ascii.eqb_spec d c) as [->|Hne].
    + split; auto.
    + rewrite IH. split; [auto | by intros [->|?]].
Qed.

Lemma replace_fmap a b s :
  Naming.replace a b s
  = string_of_list_ascii
      ((λ c, if decide (c = a) then b else c) <$> list_ascii_of_string s).
Proof.
  induction s as [|d s IH]; simpl; [done|]. rewrite IH. f_equal.
  destruct (Ascii.eqb_spec d a); by case_decide.
Qed.

(** C9. The humanizer takes the rest of the name after "describe_", or
    else after "Describe_", or else the whole name. An empty rest gives the
    name itself back; a rest that starts with an upper-case letter and has no
    underscore is given as it is; any other rest is given with every
    underscore replaced by a space. So "describe_MyClass" gives "MyClass",
    "describe_my_feature" gives "my feature" and "describe_" gives
    "describe_". *)
Theorem humanize_describe_name_cases name :
  ∃ rest,
    (name = "describe_" +:+ rest
     ∨ ((∀ r, name ≠ "describe_" +:+ r) ∧ name = "Describe_" +:+ rest)
     ∨ ((∀ r, name ≠ "describe_" +:+ r) ∧ (∀ r, name ≠ "Describe_" +:+ r)
        ∧ rest = name))
    ∧ (rest = "" → Naming.humanize_describe_name name = name)
    ∧ (∀ c tail,
         rest = String c tail → Naming.isupper c = true →
         "_"%char ∉ list_ascii_of_string rest →
         Naming.humanize_describe_name name = rest)
    ∧ (∀ c tail,
         rest = String c tail →
         Naming.isupper c = false ∨ "_"%char ∈ list_ascii_of_string rest →
         Naming.humanize_describe_name name
         = string_of_list_ascii
             ((λ ch, if decide (ch = "_"%char) then " "%char else ch)
                <$> list_ascii_of_string rest))
    ∧ Naming.humanize_describe_name "describe_MyClass" = "MyClass"
    ∧ Naming.humanize_describe_name "describe_my_feature" = "my feature"
    ∧ Naming.humanize_describe_name "describe_" = "describe_".
Proof.
  exists (Naming.strip_prefixes ["describe_"; "Describe_"] name).
  unfold Naming.humanize_describe_name.
  set (rest := Naming.strip_prefixes _ name).
  split_and!; try done.
  - subst rest. simpl.
    destruct (Naming.startswith name "describe_") eqn:H1.
    { left. by apply startswith_slice. }
    right. destruct (Naming.startswith name "Describe_") eqn:H2.
    + left. split; [intros r; by apply not_startswith|].
      by apply startswith_slice.
    + right. split_and!; [intros r; by apply not_startswith..|done].
  - by intros ->.
  - intros c tail Hrest Hup Hno. rewrite Hrest, Hup. rewrite <- Hrest.
    destruct (Naming.contains "_" rest) eqn:Hc; [|done].
    by apply contains_elem_of in Hc.
  - intros c tail Hrest Hcase. rewrite <- replace_fmap. rewrite Hrest.
    rewrite <- Hrest. destruct Hcase as [-> | Hin]; [done|].
    apply contains_elem_of in Hin. rewrite Hin. by rewrite andb_false_r.
Qed.

(** ** The claims on the test-suite's session *)

(** The end-to-end scenario: two chains that share the file and the describe
    block give one root with one describe child and the two tests in order;
    after a passed and a failed "call" report the totals are 2 tests, 1
    passed, 1 failed, the root's outcome is FAILED and the durations add
    up. *)
Example two_tests_scenario :
  let c0 := build_from_items false (new_TreeCollector 0.5) two_items in
  let passed_report :=
    make_report "test_foo.py::describe_Foo::it_works" "call"
      true false false 0.25 None false in
  let failed_report :=
    make_report "test_foo.py::describe_Foo::it_fails" "call"
      false true false 0.5 (Some "boom") false in
  roots (tree c0) = [0]
  ∧ children <$> store c0 = [[1]; [2; 3]; []; []]
  ∧ ∃ c1 c2 t root,
      update_from_report c0 passed_report = Some c1
      ∧ update_from_report c1 failed_report = Some c2
      ∧ tree_view c2 = Some t
      ∧ Model.roots t = [root]
      ∧ Model.total_tests t = 2
      ∧ Model.total_passed t = 1
      ∧ Model.total_failed t = 1
      ∧ Model.overall_outcome root = FAILED
      ∧ Model.total_duration rounding_sum t = 0.75%float.
Proof.
  intros c0 passed_report failed_report. split_and!; [by vm_compute..|].
  destruct (update_from_report c0 passed_report) as [c1|] eqn:H1;
    [|by vm_compute in H1].
  destruct (update_from_report c1 failed_report) as [c2|] eqn:H2;
    [|by vm_compute in H1, H2; simplify_eq; vm_compute in H2].
  destruct (tree_view c2) as [t|] eqn:H3;
    [|vm_compute in H1; simplify_eq; vm_compute in H2; simplify_eq;
      by vm_compute in H3].
  exists c1, c2, t. vm_compute in H1. simplify_eq.
  vm_compute in H2. simplify_eq. vm_compute in H3. simplify_eq.
  eexists. split_and!; by vm_compute.
Qed.

(** C1, the claim as written fails: the module link has [fspath], [collect],
    a [path] and [reportinfo] and is no describe block, and it is a FILE, not
    a skip; the session link has a [path] and no [reportinfo], and it is
    skipped, not a FILE. *)
Lemma location_info_does_not_skip :
  let file := module_link "test_foo.py" "test_foo.py" in
  (has_fspath file && has_collect file && has_path file = true
   ∧ _is_describe_block false file = false
   ∧ has_reportinfo file = true
   ∧ _classify_link false file = Some (FILE, "test_foo.py", "", [])
   ∧ _classify_link false file ≠ None)
  ∧ (has_fspath session_link && has_collect session_link
     && has_path session_link = true
     ∧ _is_describe_block false session_link = false
     ∧ has_reportinfo session_link = false
     ∧ _classify_link false session_link = None).
Proof.
  intros file. split; split_and!; try reflexivity. discriminate.
Qed.

Lemma classify_collector_link_witness :
  _classify_link false (module_link "test_foo.py" "test_foo.py")
  = Some (FILE, "test_foo.py", "", []).
Proof.
  exact (proj1 (proj2 (classify_collector_link false
                         (module_link "test_foo.py" "test_foo.py")
                         eq_refl eq_refl eq_refl)) eq_refl eq_refl).
Defined.

Lemma overall_outcome_precedence_witness :
  Model.overall_outcome
    (Model.mkDescribeNode "describe_Foo" "Foo" DESCRIBE "f::describe_Foo" ""
       [ Model.mkDescribeNode "it_a" "it a" TEST "f::describe_Foo::it_a" "" []
           (Some (mkTestResult FAILED 0.5 "boom" [] []));
         Model.mkDescribeNode "it_b" "it b" TEST "f::describe_Foo::it_b" "" []
           (Some (mkTestResult XPASSED 0.25 "" [] [])) ]
       None)
  = FAILED.
Proof.
  refine (proj1 (proj2 (overall_outcome_precedence _ _)) _).
  - discriminate.
  - left. vm_compute. left.
Defined.

Lemma setup_teardown_failure_is_error_witness :
  let c0 := build_from_items false (new_TreeCollector 0.5) two_items in
  let report :=
    make_report "test_foo.py::describe_Foo::it_works" "setup"
      false true false 0.5 (Some "fixture error") true in
  (c ← update_from_report c0 report; n ← store c !! 2; outcome <$> result n)
  = Some ERROR.
Proof.
  intros c0 report.
  destruct (store c0 !! 2) as [n|] eqn:Hn; [|by vm_compute in Hn].
  destruct (result n) as [r|] eqn:Hr;
    [|by vm_compute in Hn; simplify_eq; vm_compute in Hr].
  destruct (setup_teardown_failure_is_error c0 report 2 n r)
    as (r' & -> & Hout & _); [by left|done|by vm_compute|done|done|].
  simpl. rewrite list_lookup_insert_eq by (by eapply lookup_lt_Some).
  simpl. by rewrite Hout.
Defined.

Lemma call_report_overwrites_witness :
  let c0 := build_from_items false (new_TreeCollector 0.5) two_items in
  let report :=
    make_report "test_foo.py::describe_Foo::it_fails" "call"
      false true false 0.5 (Some "boom") false in
  (c ← update_from_report c0 report; n ← store c !! 3; outcome <$> result n)
  = Some FAILED.
Proof.
  intros c0 report.
  destruct (store c0 !! 3) as [n|] eqn:Hn; [|by vm_compute in Hn].
  destruct (result n) as [r|] eqn:Hr;
    [|by vm_compute in Hn; simplify_eq; vm_compute in Hr].
  destruct (call_report_overwrites c0 report 3 n r)
    as (r' & -> & Hout & _); [done|by vm_compute|done|done|].
  simpl. rewrite list_lookup_insert_eq by (by eapply lookup_lt_Some).
  simpl. by rewrite Hout.
Defined.

Lemma report_without_target_is_ignored_witness :
  let c0 := build_from_items false (new_TreeCollector 0.5) two_items in
  update_from_report c0
    (make_report "test_foo.py::it_is_unknown" "call"
       true false false 0.5 None false)
  = Some c0
  ∧ update_from_report c0
      (make_report "test_foo.py::describe_Foo" "call"
         true false false 0.5 None false)
    = Some c0.
Proof.
  intros c0. split; apply report_without_target_is_ignored.
  - left. by vm_compute.
  - right. exists 1. eexists. split_and!; [by vm_compute|by vm_compute|done].
Defined.


Lemma orphan_is_never_updated_witness :
  let report :=
    make_report "test_foo.py::describe_Orphan::it_works" "call"
      true false false 0.5 None false in
  ∃ c2 parent2,
    run false
      [NextItem; NextLink session_link; NextLink orphan_test_link;
       NextReport report]
      (new_TreeCollector 0.5, None)
    = Some (c2, parent2)
    ∧ result <$> store c2 !! 0 = Some (Some (new_TestResult []))
    ∧ tree_find_by_nodeid (store c2) (tree c2)
        "test_foo.py::describe_Orphan::it_works"
      = NotFound.
Proof.
  intros report.
  destruct (orphan_is_never_updated false 0.5 [NextItem; NextLink session_link]
              (new_TreeCollector 0.5) orphan_test_link TEST "it works" "" []
              [NextReport report])
    as (c2 & parent2 & n & Hrun & Hn & _ & _ & Hres & _ & Hfind & _);
    [done|done|done|done|].
  exists c2, parent2. split_and!; [exact Hrun| |exact Hfind].
  simpl in Hn. rewrite Hn. simpl. by rewrite Hres.
Defined.

(** * Further properties *)

(** ** model.py: the aggregates against each other *)

(** Induction on a node with the property known of all its children. *)
Lemma DescribeNode_children_ind (P : Model.DescribeNode → Prop) :
  (∀ n, Forall P (Model.children n) → P n) → ∀ n, P n.
Proof.
  intros step. fix IH 1. intros [nm shown ty id doc kids res].
  apply step. simpl. induction kids as [|k kids IHkids]; constructor.
  - apply IH.
  - apply IHkids.
Qed.

Lemma test_count_unfold (n : Model.DescribeNode) :
  Model.test_count n
  = if Model.is_test n then 1
    else sum_list (Model.test_count <$> Model.children n).
Proof. destruct n; simpl. by rewrite sum_sum_list. Qed.

Lemma passed_count_unfold (n : Model.DescribeNode) :
  Model.passed_count n
  = if Model.is_test n then (if Model.has_outcome n PASSED then 1 else 0)
    else sum_list (Model.passed_count <$> Model.children n).
Proof. destruct n; simpl. by rewrite sum_sum_list. Qed.

Lemma failed_count_unfold (n : Model.DescribeNode) :
  Model.failed_count n
  = if Model.is_test n
    then (if Model.has_outcome n FAILED || Model.has_outcome n ERROR
          then 1 else 0)
    else sum_list (Model.failed_count <$> Model.children n).
Proof. destruct n; simpl. by rewrite sum_sum_list. Qed.

Lemma skipped_count_unfold (n : Model.DescribeNode) :
  Model.skipped_count n
  = if Model.is_test n then (if Model.has_outcome n SKIPPED then 1 else 0)
    else sum_list (Model.skipped_count <$> Model.children n).
Proof. destruct n; simpl. by rewrite sum_sum_list. Qed.

Lemma overall_outcome_unfold (n : Model.DescribeNode) :
  Model.overall_outcome n
  = if Model.is_test n
    then match Model.result n with Some r => outcome r | None => PENDING end
    else
      let os := Model.overall_outcome <$> Model.children n in
      match os with
      | [] => PENDING
      | _ =>
          if existsb (λ o, bool_decide (o = FAILED) || bool_decide (o = ERROR)) os
          then FAILED
          else if existsb (λ o, bool_decide (o = XPASSED)) os then XPASSED
          else if forallb (λ o, bool_decide (o = SKIPPED)) os then SKIPPED
          else if forallb (λ o, bool_decide (o = PENDING)) os then PENDING
          else PASSED
      end.
Proof. by destruct n. Qed.

Lemma sum_list_pos (l : list nat) : 0 < sum_list l ↔ ∃ x, x ∈ l ∧ 0 < x.
Proof.
  induction l as [|y l IH]; simpl.
  - split; [lia | by intros (x & ?%elem_of_nil & _)].
  - split.
    + intros Hpos. destruct (decide (0 < y)) as [Hy | Hy].
      * exists y. split; [left | done].
      * destruct (proj1 IH) as (x & Hx & Hx0); [lia|].
        exists x. split; [by right | done].
    + intros (x & [-> | Hx]%elem_of_cons & Hx0); [lia|].
      assert (0 < sum_list l) by (apply IH; eauto). lia.
Qed.

Lemma counts_bound (n : Model.DescribeNode) :
  Model.passed_count n + Model.failed_count n + Model.skipped_count n
  ≤ Model.test_count n.
Proof.
  induction n as [n IH] using DescribeNode_children_ind.
  rewrite test_count_unfold, passed_count_unfold, failed_count_unfold,
    skipped_count_unfold.
  destruct (Model.is_test n).
  - unfold Model.has_outcome. destruct (Model.result n) as [r|]; [|simpl; lia].
    destruct (outcome r); simpl; lia.
  - revert IH. generalize (Model.children n). intros kids IH.
    induction IH as [|k kids Hk _ IHkids]; csimpl in *; lia.
Qed.

(** X1. In every tree the passed, failed and skipped tests are distinct
    tests: together they are at most the tests of the node. *)
Theorem counts_within_test_count (n : Model.DescribeNode) :
  Model.passed_count n + Model.failed_count n + Model.skipped_count n
  ≤ Model.test_count n.
Proof.
  pose proof (counts_bound n) as Hbound.
  destruct (Model.is_test n); exact Hbound.
Qed.

(** X2. A node counts a failed test exactly when its overall outcome is
    FAILED or ERROR; and ERROR is the outcome of TEST nodes only. *)
Theorem failed_count_positive_iff_failing (n : Model.DescribeNode) :
  (0 < Model.failed_count n
   ↔ Model.overall_outcome n = FAILED ∨ Model.overall_outcome n = ERROR)
  ∧ (Model.node_type n ≠ TEST → Model.overall_outcome n ≠ ERROR).
Proof.
  induction n as [n IH] using DescribeNode_children_ind.
  rewrite failed_count_unfold, overall_outcome_unfold.
  unfold Model.is_test. case_bool_decide as Hty.
  { split; [|done]. unfold Model.has_outcome.
    destruct (Model.result n) as [r|]; simpl; [|split; [lia | by intros [|]]].
    destruct (outcome r); simpl;
      (split; [intros ?; first [lia | by left | by right]
              | intros [|]; first [lia | done]]). }
  simpl.
  set (os := Model.overall_outcome <$> Model.children n).
  assert (existsb (λ o, bool_decide (o = FAILED) || bool_decide (o = ERROR)) os
          = true
          ↔ 0 < sum_list (Model.failed_count <$> Model.children n)) as Hex.
  { rewrite existsb_elem_of, sum_list_pos. subst os. split.
    - intros (o & (k & -> & Hk)%list_elem_of_fmap & Ho).
      exists (Model.failed_count k). split; [by apply list_elem_of_fmap_2|].
      rewrite Forall_forall in IH. apply (IH k Hk).
      apply orb_true_iff in Ho as [?%bool_decide_eq_true | ?%bool_decide_eq_true];
        auto.
    - intros (x & (k & -> & Hk)%list_elem_of_fmap & Hpos).
      exists (Model.overall_outcome k). split; [by apply list_elem_of_fmap_2|].
      rewrite Forall_forall in IH. apply (IH k Hk) in Hpos as [-> | ->]; done. }
  destruct (existsb _ os) eqn:Hfail.
  - assert (os ≠ []) as Hne by (by intros E; rewrite E in Hfail).
    destruct os; [done|]. split; [|done]. split; [by left|].
    intros _. by apply Hex.
  - assert (¬ 0 < sum_list (Model.failed_count <$> Model.children n)) as Hz.
    { intros H. by apply Hex in H. }
    destruct os; [split; [split; [lia | by intros [|]] | done]|].
    repeat (match goal with |- context [if ?b then _ else _] => destruct b end);
      (split; [split; [lia | by intros [|]] | done]).
Qed.

Lemma sum_list_zero (l : list nat) : sum_list l = 0 ↔ Forall (.= 0) l.
Proof.
  induction l as [|x l IH]; simpl; [by split|].
  rewrite Forall_cons, <- IH. lia.
Qed.

Lemma existsb_false_Forall (P : TestOutcome → bool) l :
  existsb P l = false ↔ Forall (λ o, P o = false) l.
Proof.
  induction l as [|o l IH]; simpl; [by split|].
  rewrite Forall_cons, <- IH. by rewrite orb_false_iff.
Qed.

Lemma no_tests_pending (n : Model.DescribeNode) :
  Model.test_count n = 0 → Model.overall_outcome n = PENDING.
Proof.
  induction n as [n IH] using DescribeNode_children_ind.
  rewrite test_count_unfold, overall_outcome_unfold.
  destruct (Model.is_test n); [done|]. simpl.
  intros Hzero%sum_list_zero.
  assert (Forall (.= PENDING) (Model.overall_outcome <$> Model.children n))
    as Hall.
  { apply Forall_fmap. rewrite Forall_fmap in Hzero.
    rewrite Forall_forall in IH, Hzero. apply Forall_forall.
    intros k Hk. simpl. apply (IH k Hk). exact (Hzero k Hk). }
  destruct (Model.overall_outcome <$> Model.children n) as [|o os]; [done|].
  assert (existsb (λ o, bool_decide (o = FAILED) || bool_decide (o = ERROR))
            (o :: os) = false) as ->.
  { apply existsb_false_Forall. eapply Forall_impl; [exact Hall|].
    by intros ? ->. }
  assert (existsb (λ o, bool_decide (o = XPASSED)) (o :: os) = false) as ->.
  { apply existsb_false_Forall. eapply Forall_impl; [exact Hall|].
    by intros ? ->. }
  apply Forall_cons in Hall as [-> Hall]. simpl.
  apply forallb_Forall_eq in Hall. by rewrite Hall.
Qed.

(** X3. A node with no test below it is PENDING, however many empty groups
    it holds. *)
Theorem no_tests_is_pending (n : Model.DescribeNode) :
  Model.test_count n = 0 → Model.overall_outcome n = PENDING.
Proof.
  intros Hzero. pose proof (no_tests_pending n Hzero) as Hpending.
  destruct (Model.overall_outcome n); done.
Qed.

(** X4. A node with at least one test, all of whose tests passed, is
    PASSED, also next to groups without tests. *)
Theorem all_passed_is_passed (n : Model.DescribeNode) :
  0 < Model.test_count n →
  Model.passed_count n = Model.test_count n →
  Model.overall_outcome n = PASSED.
Proof.
  induction n as [n IH] using DescribeNode_children_ind.
  rewrite test_count_unfold, passed_count_unfold, overall_outcome_unfold.
  destruct (Model.is_test n).
  { unfold Model.has_outcome. destruct (Model.result n) as [r|]; [|done].
    case_bool_decide; [done | lia]. }
  simpl. intros Hpos Heq.
  assert (Forall (λ k, Model.overall_outcome k = PASSED
                       ∨ Model.overall_outcome k = PENDING)
            (Model.children n)
          ∧ Exists (λ k, Model.overall_outcome k = PASSED) (Model.children n))
    as [Hall Hsome].
  { revert IH Hpos Heq. generalize (Model.children n). intros kids IH.
    induction IH as [|k kids Hk _ IHkids]; csimpl; intros Hpos Heq; [lia|].
    pose proof (counts_bound k) as Hbound.
    assert (sum_list (Model.passed_count <$> kids)
            ≤ sum_list (Model.test_count <$> kids)) as Hrest.
    { clear. induction kids as [|k kids IH]; csimpl; [done|].
      pose proof (counts_bound k). lia. }
    assert (Model.passed_count k = Model.test_count k) as Hkeq by lia.
    assert (sum_list (Model.passed_count <$> kids)
            = sum_list (Model.test_count <$> kids)) as Hreq by lia.
    destruct (decide (0 < Model.test_count k)) as [Hkpos | Hkzero].
    - split; [|by left; apply Hk].
      constructor; [by left; apply Hk|].
      destruct (decide (0 < sum_list (Model.test_count <$> kids))) as [Hp | Hz].
      + by apply IHkids.
      + clear -Hz. assert (sum_list (Model.test_count <$> kids) = 0) as Hz0 by lia.
        apply sum_list_zero in Hz0. rewrite Forall_fmap in Hz0.
        eapply Forall_impl; [exact Hz0|]. intros k' Hk'. right.
        by apply no_tests_pending.
    - assert (Model.test_count k = 0) as Hk0 by lia.
      destruct IHkids as [Hall Hsome]; [lia | done |].
      split; [|by right].
      constructor; [|done]. right. by apply no_tests_pending. }
  assert (Forall (λ o, o = PASSED ∨ o = PENDING)
            (Model.overall_outcome <$> Model.children n)) as Hos.
  { apply Forall_fmap. exact Hall. }
  clear Hall. rename Hos into Hall.
  apply Exists_exists in Hsome as (k & Hk & Hkp).
  assert (PASSED ∈ Model.overall_outcome <$> Model.children n) as Hin.
  { rewrite <- Hkp. by apply list_elem_of_fmap_2. }
  destruct (Model.overall_outcome <$> Model.children n) as [|o os];
    [by apply elem_of_nil in Hin|].
  assert (existsb (λ o, bool_decide (o = FAILED) || bool_decide (o = ERROR))
            (o :: os) = false) as ->.
  { apply existsb_false_Forall. eapply Forall_impl; [exact Hall|].
    by intros ? [-> | ->]. }
  assert (existsb (λ o, bool_decide (o = XPASSED)) (o :: os) = false) as ->.
  { apply existsb_false_Forall. eapply Forall_impl; [exact Hall|].
    by intros ? [-> | ->]. }
  assert (forallb (λ o, bool_decide (o = SKIPPED)) (o :: os) = false) as ->.
  { apply not_true_is_false. intros Hsk%forallb_Forall_eq.
    rewrite Forall_forall in Hsk. by specialize (Hsk _ Hin). }
  assert (forallb (λ o, bool_decide (o = PENDING)) (o :: os) = false) as ->.
  { apply not_true_is_false. intros Hpe%forallb_Forall_eq.
    rewrite Forall_forall in Hpe. by specialize (Hpe _ Hin). }
  done.
Qed.

Lemma all_passed_is_passed_witness :
  Model.overall_outcome
    (Model.mkDescribeNode "test_foo.py" "test_foo.py" FILE "test_foo.py" ""
       [ Model.mkDescribeNode "describe_Empty" "Empty" DESCRIBE
           "test_foo.py::describe_Empty" "" [] None;
         Model.mkDescribeNode "it_a" "it a" TEST "test_foo.py::it_a" "" []
           (Some (mkTestResult PASSED 0.5 "" [] [])) ]
       None)
  = PASSED.
Proof. apply all_passed_is_passed; vm_compute; [lia | reflexivity]. Defined.

Lemma no_tests_is_pending_witness :
  Model.overall_outcome
    (Model.mkDescribeNode "test_foo.py" "test_foo.py" FILE "test_foo.py" ""
       [ Model.mkDescribeNode "describe_Empty" "Empty" DESCRIBE
           "test_foo.py::describe_Empty" "" [] None ]
       None)
  = PENDING.
Proof. apply no_tests_is_pending. reflexivity. Defined.

(** ** model.py: the search *)

Lemma find_app {A} (f : A → bool) l1 l2 :
  List.find f (l1 ++ l2)
  = match List.find f l1 with Some x => Some x | None => List.find f l2 end.
Proof.
  induction l1 as [|x l1 IH]; simpl; [done|]. by destruct (f x).
Qed.

Lemma find_by_nodeid_preorder (n : Model.DescribeNode) id :
  Model.find_by_nodeid n id
  = List.find (λ m, String.eqb (Model.nodeid m) id) (preorder n).
Proof.
  induction n as [n IH] using DescribeNode_children_ind.
  destruct n as [nm shown ty nid doc kids res]. simpl in *.
  destruct (String.eqb nid id); [done|].
  induction IH as [|k kids Hk _ IHkids]; simpl; [done|].
  rewrite find_app, <- Hk. by destruct (Model.find_by_nodeid k id).
Qed.

(** X5. The search of a node returns the first node, in the order parent
    before children and children left to right, whose identifier is the one
    asked for: [None] exactly when no node below has it. *)
Theorem find_by_nodeid_first_in_preorder (n : Model.DescribeNode) id :
  Model.find_by_nodeid n id
  = List.find (λ m, String.eqb (Model.nodeid m) id) (preorder n)
  ∧ (Model.find_by_nodeid n id = None
     ↔ ∀ m, m ∈ preorder n → Model.nodeid m ≠ id).
Proof.
  rewrite find_by_nodeid_preorder. split; [done|]. split.
  - intros Hnone m Hm. apply list_elem_of_In in Hm.
    pose proof (find_none _ _ Hnone m Hm) as Hneq. simpl in Hneq.
    by apply String.eqb_neq.
  - intros Hall.
    destruct (List.find _ (preorder n)) as [m|] eqn:Hfind; [|done].
    apply find_some in Hfind as [Hm Heq]. apply list_elem_of_In in Hm.
    apply String.eqb_eq in Heq. by destruct (Hall m Hm).
Qed.

(** X6. The search of a tree returns the first node with the identifier
    in the order of the roots, each root searched before the next. *)
Theorem tree_find_by_nodeid_first_in_preorder (t : Model.DescribeTree) id :
  Model.tree_find_by_nodeid t id
  = List.find (λ m, String.eqb (Model.nodeid m) id)
      (flat_map preorder (Model.roots t)).
Proof.
  unfold Model.tree_find_by_nodeid.
  induction (Model.roots t) as [|r rs IH]; simpl; [done|].
  rewrite find_app, <- find_by_nodeid_preorder.
  by destruct (Model.find_by_nodeid r id).
Qed.

(** ** naming.py: what the humanizers keep and remove *)

Lemma replace_length a b s :
  String.length (Naming.replace a b s) = String.length s.
Proof. induction s as [|c s IH]; simpl; [done|]. by rewrite IH. Qed.

Lemma replace_removes a b s :
  a ≠ b → Naming.contains a (Naming.replace a b s) = false.
Proof.
  intros Hab. induction s as [|c s IH]; simpl; [done|].
  destruct (Ascii.eqb_spec c a) as [->|Hca].
  - destruct (Ascii.eqb_spec b a) as [->|_]; done.
  - destruct (Ascii.eqb_spec c a); done.
Qed.

Lemma replace_absent a b s :
  Naming.contains a s = false → Naming.replace a b s = s.
Proof.
  induction s as [|c s IH]; simpl; [done|].
  destruct (Ascii.eqb_spec c a); [done|]. intros Hs. by rewrite IH.
Qed.

(** X7. The test-name humanizer keeps the length of the name, leaves no
    underscore, returns a name without underscores as it is, and applied to
    its own result changes nothing. *)
Theorem humanize_test_name_facts name :
  String.length (Naming.humanize_test_name name) = String.length name
  ∧ Naming.contains "_" (Naming.humanize_test_name name) = false
  ∧ (Naming.contains "_" name = false → Naming.humanize_test_name name = name)
  ∧ Naming.humanize_test_name (Naming.humanize_test_name name)
    = Naming.humanize_test_name name.
Proof.
  unfold Naming.humanize_test_name. split_and!.
  - apply replace_length.
  - by apply replace_removes.
  - apply replace_absent.
  - apply replace_absent. by apply replace_removes.
Qed.

(** X8. The describe-name humanizer returns a name with an underscore only
    for the two bare prefixes, which it returns as they are. *)
Theorem humanize_describe_name_underscore name :
  Naming.contains "_" (Naming.humanize_describe_name name) = true
  ↔ name = "describe_" ∨ name = "Describe_".
Proof.
  split; [|by intros [-> | ->]].
  unfold Naming.humanize_describe_name.
  destruct (Naming.strip_prefixes ["describe_"; "Describe_"] name)
    as [|c0 tail] eqn:Hrest.
  - intros Hname. cbn [Naming.strip_prefixes] in Hrest.
    destruct (Naming.startswith name "describe_") eqn:H1.
    { left. apply startswith_slice in H1. by rewrite Hrest in H1. }
    destruct (Naming.startswith name "Describe_") eqn:H2.
    { right. apply startswith_slice in H2. by rewrite Hrest in H2. }
    by rewrite Hrest in Hname.
  - destruct (Naming.contains "_" (String c0 tail)) eqn:Hc.
    + rewrite andb_false_r. by rewrite replace_removes.
    + destruct (Naming.isupper c0); cbn [andb negb].
      * by rewrite Hc.
      * by rewrite replace_removes.
Qed.

(** ** The further properties on the test-suite's session *)


Lemma classify_describe_block_witness :
  _classify_link false (describe_link "describe_Foo" "test_foo.py::describe_Foo")
  = Some (DESCRIBE, "Foo", "", []).
Proof.
  destruct (classify_describe_block false
              (describe_link "describe_Foo" "test_foo.py::describe_Foo")
              eq_refl eq_refl) as (doc & Heq & _).
  rewrite Heq. vm_compute in Heq. injection Heq as <-. reflexivity.
Defined.

Lemma setup_skip_sets_outcome_witness :
  let c0 := build_from_items false (new_TreeCollector 0.5) two_items in
  let report :=
    make_report "test_foo.py::describe_Foo::it_works" "setup"
      false false true 0.25 (Some "expected to fail") true in
  (c ← update_from_report c0 report; n ← store c !! 2; outcome <$> result n)
  = Some XFAILED.
Proof.
  intros c0 report.
  destruct (store c0 !! 2) as [n|] eqn:Hn; [|by vm_compute in Hn].
  destruct (result n) as [r|] eqn:Hr;
    [|by vm_compute in Hn; simplify_eq; vm_compute in Hr].
  destruct (setup_skip_sets_outcome c0 report 2 n r) as (-> & Hx & _);
    [done|done|done|by vm_compute|done|done|].
  simpl. rewrite list_lookup_insert_eq by (by eapply lookup_lt_Some).
  simpl. by rewrite Hx.
Defined.

Lemma other_reports_are_ignored_witness :
  let c0 := build_from_items false (new_TreeCollector 0.5) two_items in
  update_from_report c0
    (make_report "test_foo.py::describe_Foo::it_works" "teardown"
       true false false 0.25 None false)
  = Some c0.
Proof.
  intros c0. apply other_reports_are_ignored; [done | by left | by right].
Defined.

Lemma update_from_report_twice_witness :
  let c0 := build_from_items false (new_TreeCollector 0.5) two_items in
  let report :=
    make_report "test_foo.py::describe_Foo::it_fails" "call"
      false true false 0.5 (Some "boom") false in
  ∃ c1, update_from_report c0 report = Some c1
        ∧ update_from_report c1 report = Some c1
        ∧ c1 ≠ c0.
Proof.
  intros c0 report.
  destruct (update_from_report c0 report) as [c1|] eqn:Hup;
    [|by vm_compute in Hup].
  exists c1. split_and!; [done | by apply (update_from_report_twice c0) |].
  vm_compute in Hup. injection Hup as <-. intros Heq.
  apply (f_equal (λ c, outcome <$> (store c !! 3 ≫= result))) in Heq.
  by vm_compute in Heq.
Defined.

Lemma update_from_report_keeps_structure_witness :
  let c0 := build_from_items false (new_TreeCollector 0.5) two_items in
  let report :=
    make_report "test_foo.py::describe_Foo::it_fails" "call"
      false true false 0.5 (Some "boom") false in
  ∃ c1, update_from_report c0 report = Some c1
        ∧ tree c1 = tree c0 ∧ _nodes c1 = _nodes c0
        ∧ length (store c1) = 4.
Proof.
  intros c0 report.
  destruct (update_from_report c0 report) as [c1|] eqn:Hup;
    [|by vm_compute in Hup].
  destruct (update_from_report_keeps_structure c0 report c1 Hup)
    as (Htree & Hreg & Hlen & _).
  exists c1. split_and!; [done..|]. by rewrite Hlen.
Defined.

Lemma session_nodes_are_typed_witness :
  let c0 := build_from_items false (new_TreeCollector 0.5) two_items in
  node_type <$> store c0 !! 0 = Some FILE.
Proof.
  intros c0.
  destruct (session_nodes_are_typed false 0.5 (build_events two_items)
              c0 (Some 3)) as [Hroots _]; [by vm_compute|].
  apply Hroots. vm_compute. left.
Defined.

Lemma attached_nodes_are_found_witness :
  let c0 := build_from_items false (new_TreeCollector 0.5) two_items in
  tree_find_by_nodeid (store c0) (tree c0)
    "test_foo.py::describe_Foo::it_fails"
  = Found 3.
Proof.
  intros c0.
  destruct (store c0 !! 1) as [d|] eqn:Hd; [|by vm_compute in Hd].
  destruct (store c0 !! 0) as [f|] eqn:Hf; [|by vm_compute in Hf].
  destruct (store c0 !! 3) as [n|] eqn:Hn; [|by vm_compute in Hn].
  assert (reachable c0 3) as Hreach.
  { apply (reachable_child c0 1 d); [|exact Hd|].
    - apply (reachable_child c0 0 f); [|exact Hf|].
      + apply reachable_root. vm_compute. left.
      + vm_compute in Hf. injection Hf as <-. left.
    - vm_compute in Hd. injection Hd as <-. right. left. }
  assert (run false (build_events two_items) (new_TreeCollector 0.5, None)
          = Some (c0, Some 3)) as Hrun by (vm_compute; reflexivity).
  pose proof (attached_nodes_are_found false 0.5 (build_events two_items)
                c0 (Some 3) 3 n Hrun Hreach Hn) as Hfound.
  vm_compute in Hn. injection Hn as <-. exact Hfound.
Defined.

Lemma session_reports_are_taken_witness :
  let c0 := build_from_items false (new_TreeCollector 0.5) two_items in
  ∃ c', update_from_report c0
          (make_report "test_foo.py::describe_Foo::it_works" "call"
             true false false 0.25 None false)
        = Some c'.
Proof.
  intros c0.
  assert (run false (build_events two_items) (new_TreeCollector 0.5, None)
          = Some (c0, Some 3)) as Hrun by (vm_compute; reflexivity).
  exact (session_reports_are_taken false 0.5 (build_events two_items) c0
           (Some 3) _ Hrun).
Defined.

Lemma attached_test_takes_call_report_witness :
  let c0 := build_from_items false (new_TreeCollector 0.5) two_items in
  let report :=
    make_report "test_foo.py::describe_Foo::it_works" "call"
      true false false 0.25 None false in
  ∃ c' n' r',
    update_from_report c0 report = Some c'
    ∧ store c' !! 2 = Some n' ∧ result n' = Some r'
    ∧ outcome r' = PASSED ∧ duration r' = 0.25%float.
Proof.
  intros c0 report.
  destruct (store c0 !! 1) as [d|] eqn:Hd; [|by vm_compute in Hd].
  destruct (store c0 !! 0) as [f|] eqn:Hf; [|by vm_compute in Hf].
  destruct (store c0 !! 2) as [n|] eqn:Hn; [|by vm_compute in Hn].
  destruct (result n) as [r|] eqn:Hr;
    [|by vm_compute in Hn; simplify_eq; vm_compute in Hr].
  assert (reachable c0 2) as Hreach.
  { apply (reachable_child c0 1 d); [|exact Hd|].
    - apply (reachable_child c0 0 f); [|exact Hf|].
      + apply reachable_root. vm_compute. left.
      + vm_compute in Hf. injection Hf as <-. left.
    - vm_compute in Hd. injection Hd as <-. left. }
  assert (run false (build_events two_items) (new_TreeCollector 0.5, None)
          = Some (c0, Some 3)) as Hrun by (vm_compute; reflexivity).
  assert (report_nodeid report = nodeid n) as Hid.
  { vm_compute in Hn. by injection Hn as <-. }
  exact (attached_test_takes_call_report false 0.5 (build_events two_items)
           c0 (Some 3) 2 n r report Hrun Hreach Hn Hr eq_refl Hid).
Defined.

Lemma new_node_attached_iff_witness :
  let c := (visit_link false (new_TreeCollector 0.5, None)
              (module_link "test_foo.py" "test_foo.py")).1 in
  reachable
    (visit_link false (c, Some 0)
       (describe_link "describe_Foo" "test_foo.py::describe_Foo")).1 1.
Proof.
  intros c.
  assert (run false
            [NextItem; NextLink (module_link "test_foo.py" "test_foo.py")]
            (new_TreeCollector 0.5, None) = Some (c, Some 0)) as Hrun
    by reflexivity.
  assert (_nodes c !! link_nodeid
            (describe_link "describe_Foo" "test_foo.py::describe_Foo") = None)
    as Hreg by (vm_compute; reflexivity).
  destruct (new_node_attached_iff false 0.5 _ c (Some 0) _
              DESCRIBE "Foo" "" [] Hrun Hreg eq_refl) as [Hnew _].
  apply Hnew. right. exists 0. split; [done|].
  apply reachable_root. vm_compute. left.
Defined.
